(** * Monte Carlo trajectory samplers of gpvolve / evotpt

    Shallow embedding of
    - [gpvolve/evolve/mc.py]: [monte_carlo] and
      [monte_carlo_metropolis_criterion];
    - [evotpt/mcmc_path_sampling.py]: [MarkovChain.simulate].

    Genotypes are Python [str] values, the genotype-phenotype mapping is a
    dict (a [gmap]), tuples of visited genotypes are lists extended at the
    end.  The process-wide random generator is a tape of draws consumed
    from the left.  Calls to the collaborators (neighbor enumerator,
    fixation model, random generator) are recorded in a trace, so that
    statements about which calls are made can be written down. *)

From Stdlib Require Import ZArith Floats QArith Qcanon Ascii String.
From stdpp Require Import base list gmap strings.

Local Open Scope Z_scope.

(** ** Data *)

(** A genotype is a Python [str]. *)
Abbreviation genotype := string.

(** Exceptions that can leave the samplers.  [EvolverError] is the
    repository's own exception class; the others are raised by the built-in
    operations the code uses ([dict] subscripting, indexing, [list.index]). *)
Inductive exn :=
| EvolverError (msg : string)
| KeyError (key : genotype)
| IndexError
| ValueError.

(** Result of one call.  A call that asks for more random draws than the
    tape holds is [Unfinished]; a tape entry that the generator cannot
    produce (an index outside the sampled array) is a [BadDraw]. *)
Inductive outcome (A : Type) :=
| Return (a : A)
| Raise (e : exn)
| Unfinished
| BadDraw.
Arguments Return {A} a.
Arguments Raise {A} e.
Arguments Unfinished {A}.
Arguments BadDraw {A}.

(** Calls to the collaborators and the accept/reject decisions of the
    Metropolis walker, in the order they happen. *)
Inductive event :=
| CallNeighbors (current : genotype)
| CallModel (current neighbor : genotype)
| CallRandom
| Accepted (current proposed : genotype)
| Rejected (current proposed : genotype).

(** What is known when a call of a walker ends: its result, the tuple
    [visited] and the counter ([nmoves] or [fails]) at that point, and the
    trace of collaborator calls. *)
Record run := Run {
  result : outcome (list genotype);
  final_visited : list genotype;
  final_count : Z;
  trace : list event
}.

Definition logged (evs : list event) (r : run) : run :=
  Run (result r) (final_visited r) (final_count r) (evs ++ trace r).

(** ** Arithmetic of NumPy and Python floats

    The operations the walkers apply to numbers, as an interface: the
    walkers are written against it, and [float_numeric] below gives the
    IEEE 754 binary64 instance. *)
Class Numeric (num : Type) := {
  of_int : Z → num;                 (* int to float *)
  sub : num → num → num;
  mul : num → num → num;
  div : num → num → num;
  np_sum : list num → num;          (* ndarray.sum() *)
  py_sum : list num → num;          (* builtin sum() *)
  eqb : num → num → bool;
  ltb : num → num → bool;
  geb : num → num → bool;
  isnan : num → bool;
  clip_inf : num → num              (* an infinity becomes the largest finite value *)
}.

(** [np.nan_to_num] on one element: not-a-number becomes 0, an infinity
    the largest finite number of its sign, anything else is kept. *)
Definition nan_to_num {num} `{!Numeric num} (x : num) : num :=
  if isnan x then of_int 0 else clip_inf x.

Module FloatNum.
Local Open Scope float_scope.

Definition of_int (z : Z) : float :=
  if (z <? 0)%Z then - PrimFloat.of_uint63 (Uint63.of_Z (- z))
  else PrimFloat.of_uint63 (Uint63.of_Z z).

Definition max_float : float := 0x1.fffffffffffffp+1023.

Definition clip_inf (x : float) : float :=
  if x =? infinity then max_float
  else if x =? neg_infinity then - max_float
  else x.

(** Summation from the left, starting at 0. *)
Definition sum (l : list float) : float := foldl PrimFloat.add (of_int 0) l.
End FloatNum.

#[export] Instance float_numeric : Numeric float := {|
  of_int := FloatNum.of_int;
  sub := PrimFloat.sub;
  mul := PrimFloat.mul;
  div := PrimFloat.div;
  np_sum := FloatNum.sum;
  py_sum := FloatNum.sum;
  eqb := PrimFloat.eqb;
  ltb := PrimFloat.ltb;
  geb := λ x y, PrimFloat.leb y x;
  isnan := PrimFloat.is_nan;
  clip_inf := FloatNum.clip_inf
|}.

(** ** Python helpers *)

(** [str(t)] for a tuple [t] of plain strings: [('00', '01')], with the
    trailing comma of one-element tuples. *)
Definition repr_str (s : string) : string := "'" +:+ s +:+ "'".

Fixpoint join (sep : string) (l : list string) : string :=
  match l with
  | [] => ""
  | [s] => s
  | s :: l' => s +:+ sep +:+ join sep l'
  end.

Definition str_tuple (t : list genotype) : string :=
  match t with
  | [_] => "(" +:+ join ", " (repr_str <$> t) +:+ ",)"
  | _ => "(" +:+ join ", " (repr_str <$> t) +:+ ")"
  end.

(** [d[k]] on a dict. *)
Definition getitem {V} (d : gmap genotype V) (k : genotype) : exn + V :=
  match d !! k with
  | Some v => inr v
  | None => inl (KeyError k)
  end.

(** [l.index(x)]: position of the first occurrence. *)
Fixpoint list_index (x : genotype) (l : list genotype) : option nat :=
  match l with
  | [] => None
  | y :: l' => if bool_decide (y = x) then Some 0%nat else S <$> list_index x l'
  end.

(** ** The genotype-phenotype map and the collaborators *)

(** [mut] is the type of [gpm.mutations], which the walkers only hand to
    the neighbor enumerator. *)
Record GenotypePhenotypeMap (num mut : Type) := {
  phenotypes : gmap genotype num;    (* gpm.map("genotypes", "phenotypes") *)
  mutations : mut
}.
Arguments phenotypes {num mut} g.
Arguments mutations {num mut} g.

(** The functions imported from [.tools]. *)
Record Tools (mut : Type) := {
  get_neighbors : genotype → mut → list genotype;
  get_forward_neighbors : genotype → genotype → mut → list genotype
}.
Arguments get_neighbors {mut} t.
Arguments get_forward_neighbors {mut} t.

Definition max_moves_msg : string := "Monte Carlo exceeded max number of moves.".

Definition stuck_msg : string :=
  String.append "Monte Carlo simulation got stuck; neighbors are deleterious. "
    (String (Ascii.ascii_of_nat 10) "Current progress : ").

(** ** [monte_carlo] *)

Section monte_carlo.
Context {num mut : Type} `{!Numeric num}.
Variable gpm : GenotypePhenotypeMap num mut.
Variable tools : Tools mut.
Variable source target : genotype.
Variable model : num → num → num.      (* keyword arguments folded in *)
Variable max_moves : Z.
Variable forward return_bad : bool.

Definition mapping_p : gmap genotype num := phenotypes gpm.

(** Lines 54-59 and 68-69: the enumerator and its arguments. *)
Definition neighbors_method (current : genotype) : list genotype :=
  if forward then get_forward_neighbors tools source current (mutations gpm)
  else get_neighbors tools current (mutations gpm).

(** Line 72, the list comprehension: one model call per neighbor, in
    order; the first neighbor missing from the mapping stops it. *)
Fixpoint model_calls (current : genotype) (fitness0 : num)
    (neighbors : list genotype) : list event * (exn + list num) :=
  match neighbors with
  | [] => ([], inr [])
  | n :: rest =>
    match getitem mapping_p n with
    | inl e => ([], inl e)
    | inr fitness1 =>
      let '(evs, r) := model_calls current fitness0 rest in
      (CallModel current n :: evs,
       match r with
       | inl e => inl e
       | inr outs => inr (model fitness0 fitness1 :: outs)
       end)
    end
  end.

(** What one pass through lines 65-77 computes. *)
Record observation := Observation {
  neighbors : list genotype;
  moves : list genotype;
  fixations : list num;
  trans_prob : list num;
  self_prob : num;
  probs : list num
}.

Definition observe (current : genotype) : list event * (exn + observation) :=
  match getitem mapping_p current with
  | inl e => ([], inl e)
  | inr fitness0 =>
    let neighbors := neighbors_method current in
    let moves := neighbors ++ [current] in
    let '(evs, outs) := model_calls current fitness0 neighbors in
    (CallNeighbors current :: evs,
     match outs with
     | inl e => inl e
     | inr outs =>
       let fixations := nan_to_num <$> outs in
       let trans_prob :=
         (λ x, div x (of_int (Z.of_nat (length neighbors) + 1))) <$> fixations in
       let self_prob := sub (of_int 1) (np_sum trans_prob) in
       let probs := trans_prob ++ [self_prob] in
       inr (Observation neighbors moves fixations trans_prob self_prob probs)
     end)
  end.

(** Line 86. *)
Definition cumulative_dist (probs : list num) : list num :=
  (λ i, mul (py_sum (take (i + 1) probs)) (of_int 100)) <$> seq 0 (length probs).

(** Line 90: [moves[cumulative_dist >= mc_number][0]]. *)
Fixpoint first_masked (moves : list genotype) (cumulative : list num)
    (mc_number : num) : option genotype :=
  match moves, cumulative with
  | m :: moves', c :: cumulative' =>
    if geb c mc_number then Some m else first_masked moves' cumulative' mc_number
  | _, _ => None
  end.

(** Lines 63-96.  The tape holds the values of [np.random.uniform(0,100)].
    [visited[-1]] on an empty tuple is an [IndexError]; the loop never gets
    there, since [visited] starts as [(source,)] and only grows. *)
Fixpoint mc_loop (tape : list num) (visited : list genotype) (nmoves : Z) : run :=
  match last visited with
  | None => Run (Raise IndexError) visited nmoves []
  | Some current =>
    if bool_decide (current ≠ target) && bool_decide (nmoves ≤ max_moves) then
      let '(evs, o) := observe current in
      logged evs
        match o with
        | inl e => Run (Raise e) visited nmoves []
        | inr o =>
          if eqb (self_prob o) (of_int 1) then
            if return_bad then Run (Return visited) visited nmoves []
            else Run (Raise (EvolverError (stuck_msg +:+ str_tuple visited)))
                   visited nmoves []
          else
            match tape with
            | [] => Run Unfinished visited nmoves []
            | mc_number :: tape' =>
              logged [CallRandom]
                match first_masked (moves o) (cumulative_dist (probs o)) mc_number with
                | None => Run (Raise IndexError) visited nmoves []
                | Some new => mc_loop tape' (visited ++ [new]) (nmoves + 1)
                end
            end
        end
    else if bool_decide (nmoves > max_moves) then
      Run (Raise (EvolverError max_moves_msg)) visited nmoves []
    else Run (Return visited) visited nmoves []
  end.

Definition monte_carlo (tape : list num) : run := mc_loop tape [source] 0.
End monte_carlo.

(** ** [monte_carlo_metropolis_criterion] *)

Section metropolis.
Context {num mut : Type} `{!Numeric num}.
Variable gpm : GenotypePhenotypeMap num mut.
Variable tools : Tools mut.
Variable source target : genotype.
Variable model : num → num → num.
Variable max_fails : Z.

(** Line 143. *)
Definition candidates (current : genotype) : list genotype :=
  get_neighbors tools current (mutations gpm) ++ [current].

(** Lines 138-157.  A tape entry holds the position picked by
    [np.random.choice] and the value of [np.random.rand()]; a position
    outside the array is a draw the generator cannot make. *)
Fixpoint metropolis_loop (tape : list (nat * num)) (visited : list genotype)
    (fails : Z) : run :=
  match last visited with
  | None => Run (Raise IndexError) visited fails []
  | Some current =>
    if bool_decide (current ≠ target) && bool_decide (fails ≤ max_fails) then
      match getitem (phenotypes gpm) current with
      | inl e => Run (Raise e) visited fails []
      | inr fitness0 =>
        logged [CallNeighbors current]
          match tape with
          | [] => Run Unfinished visited fails []
          | (pick, mc_number) :: tape' =>
            logged [CallRandom]
              match candidates current !! pick with
              | None => Run BadDraw visited fails []
              | Some mc_choice =>
                match getitem (phenotypes gpm) mc_choice with
                | inl e => Run (Raise e) visited fails []
                | inr fitness1 =>
                  let mc_fixation := model fitness0 fitness1 in
                  logged [CallModel current mc_choice; CallRandom]
                    (if ltb mc_number mc_fixation then
                       logged [Accepted current mc_choice]
                         (metropolis_loop tape' (visited ++ [mc_choice]) fails)
                     else
                       logged [Rejected current mc_choice]
                         (metropolis_loop tape' (visited ++ [current]) (fails + 1)))
                end
              end
          end
      end
    else if bool_decide (fails > max_fails) then
      Run (Raise (EvolverError max_moves_msg)) visited fails []
    else Run (Return visited) visited fails []
  end.

Definition monte_carlo_metropolis_criterion (tape : list (nat * num)) : run :=
  metropolis_loop tape [source] 0.
End metropolis.

(** ** [MarkovChain.simulate] *)

(** The transition matrix is a data frame: its column labels ([list(tm)])
    and its rows, addressed by position. *)
Record DataFrame (num : Type) := {
  columns : list genotype;
  rows : list (list num)
}.
Arguments columns {num} d.
Arguments rows {num} d.

(** The attributes of a [MarkovChain] object that [simulate] reads; the
    constructor of [Sampling], which sets [binary_wildtype] and [mutant],
    and [utils.transition_matrix] are outside the sources. *)
Record MarkovChain (num : Type) := {
  tm : DataFrame num;
  binary_wildtype : genotype;
  mutant : list genotype
}.
Arguments tm {num} m.
Arguments binary_wildtype {num} m.
Arguments mutant {num} m.

(** The dict [log], whose only key is ["path"]. *)
Record log := Log { path : list genotype }.

Section simulate.
Context {num : Type}.
Variable self : MarkovChain num.

Definition genotypes : list genotype := columns (tm self).

Definition gt_indices : list nat := seq 0 (length genotypes).

(** Lines 76-89.  A tape entry is the index returned by
    [rv_discrete(values=(gt_indices, pmf)).rvs()], one of [gt_indices]. *)
Fixpoint simulate_loop (tape : list nat) (StateCurr : genotype)
    (path : list genotype) : outcome log :=
  if bool_decide (StateCurr ∉ mutant self) then
    match list_index StateCurr genotypes with
    | None => Raise ValueError
    | Some row =>
      match rows (tm self) !! row with
      | None => Raise IndexError
      | Some pmf =>
        match tape with
        | [] => Unfinished
        | drawn :: tape' =>
          if bool_decide (drawn ∈ gt_indices) then
            match genotypes !! drawn with
            | None => Raise IndexError
            | Some state_drawn =>
              simulate_loop tape' state_drawn (path ++ [state_drawn])
            end
          else BadDraw
        end
      end
    end
  else Return (Log path).

Definition simulate (tape : list nat) : outcome log :=
  let StateCurr := binary_wildtype self in
  simulate_loop tape StateCurr [StateCurr].
End simulate.

(** ** Measures on trajectories and traces *)

(** Number of positions [i > 0] with [v[i] == v[i-1]]. *)
Fixpoint repeats (v : list genotype) : nat :=
  match v with
  | a :: (b :: _) as v' => (if bool_decide (b = a) then 1 else 0) + repeats v'
  | _ => 0
  end.

Definition is_rejection (e : event) : bool :=
  match e with Rejected _ _ => true | _ => false end.

(** An accepted proposal that is the current genotype itself. *)
Definition is_accepted_stay (e : event) : bool :=
  match e with Accepted current proposed => bool_decide (proposed = current) | _ => false end.

Definition count_events (f : event → bool) (t : list event) : nat :=
  length (List.filter f t).

(** Number of positions of the array [a] that hold [c]. *)
Definition occurrences (c : genotype) (a : list genotype) : nat :=
  length (List.filter (λ x, bool_decide (x = c)) a).

(** [np.random.choice(a)] picks a position of [a] uniformly; this is the
    probability that the element picked is [c]. *)
Definition choice_prob (a : list genotype) (c : genotype) : Qc :=
  (Q2Qc (inject_Z (Z.of_nat (occurrences c a))) /
   Q2Qc (inject_Z (Z.of_nat (length a))))%Qc.

(** Two genotypes differ by exactly one mutation: same length, and one
    site, a mutable one, where they differ. *)
Definition one_mutation (mutable : nat → Prop) (a b : genotype) : Prop :=
  String.length a = String.length b ∧
  ∃ i, mutable i ∧ String.get i a ≠ String.get i b ∧
       ∀ j, j ≠ i → String.get j a = String.get j b.

(** Modelled from the spec: [get_neighbors] lives in [gpvolve/evolve/tools.py],
    which is not among the sources.  The spec has it return the set of
    genotypes one mutation away from its argument: as a list, no genotype
    twice, and never the argument itself. *)
Definition enumerates_a_set (ns : list genotype) (current : genotype) : Prop :=
  NoDup ns ∧ current ∉ ns.

(** ** A two-site binary landscape

    Genotypes 00, 01, 10, 11 with fitness 1, 1, 1, 2; the neighbors of a
    genotype are obtained by flipping one of its two sites. *)
Module TwoSite.

Definition gpm : GenotypePhenotypeMap float unit := {|
  phenotypes :=
    list_to_map [("00", 1%float); ("01", 1%float); ("10", 1%float); ("11", 2%float)];
  mutations := tt
|}.

Definition flip (c : ascii) : ascii :=
  if Ascii.eqb c "0" then "1"%char else "0"%char.

Definition flips (g : genotype) (_ : unit) : list genotype :=
  match g with
  | String a (String b EmptyString) =>
    [String (flip a) (String b EmptyString); String a (String (flip b) EmptyString)]
  | _ => []
  end.

Definition tools : Tools unit := {|
  get_neighbors := flips;
  get_forward_neighbors := λ _, flips
|}.

(** An enumerator that finds no neighbor at all. *)
Definition no_tools : Tools unit := {|
  get_neighbors := λ _ _, [];
  get_forward_neighbors := λ _ _ _, []
|}.

(** Two fixation models: every move fixes; only improvements fix. *)
Definition always (f0 f1 : float) : float := 1%float.

Definition improving (f0 f1 : float) : float :=
  if PrimFloat.ltb f0 f1 then 1%float else 0%float.

(** A model that is undefined unless fitness improves. *)
Definition undefined_unless_improving (f0 f1 : float) : float :=
  if PrimFloat.ltb f0 f1 then 1%float else PrimFloat.nan.

Definition chain : MarkovChain float := {|
  tm := {|
    columns := ["00"; "01"; "11"];
    rows := [[0%float; 1%float; 0%float];
             [0%float; 0%float; 1%float];
             [0%float; 0%float; 1%float]]
  |};
  binary_wildtype := "00";
  mutant := ["11"]
|}.

(** The same chain started inside the mutant set. *)
Definition chain_at_mutant : MarkovChain float := {|
  tm := tm chain;
  binary_wildtype := "11";
  mutant := ["11"]
|}.
End TwoSite.

(** ** More measures on traces *)

Definition is_random (e : event) : bool :=
  match e with CallRandom => true | _ => false end.

Definition is_model_call (e : event) : bool :=
  match e with CallModel _ _ => true | _ => false end.

(** A step of the Metropolis walker, accepted or rejected. *)
Definition is_attempt (e : event) : bool :=
  match e with Accepted _ _ | Rejected _ _ => true | _ => false end.

(** ** [MarkovChain.__init__], the output file name *)

(** [s.split(sep)] for a separator of one character: the pieces of [s]
    between the separators, at least one piece. *)
Fixpoint split (sep : ascii) (s : string) : list string :=
  match s with
  | EmptyString => [EmptyString]
  | String c s' =>
    if Ascii.eqb c sep then EmptyString :: split sep s'
    else
      match split sep s' with
      | piece :: pieces => String c piece :: pieces
      | [] => [String c EmptyString]
      end
  end.

(** Lines 33-34: [self.outfilename = outputfile.split(".")[0]], set only when
    an [outputfile] is given. *)
Definition init_outfilename (outputfile : option string) : option string :=
  match outputfile with
  | None => None
  | Some name => head (split "." name)
  end.

(** * Properties *)

(** ** Helper facts *)

Lemma logged_result evs r : result (logged evs r) = result r.
Proof. done. Qed.

Lemma logged_final_visited evs r : final_visited (logged evs r) = final_visited r.
Proof. done. Qed.

Lemma logged_final_count evs r : final_count (logged evs r) = final_count r.
Proof. done. Qed.

Lemma logged_trace evs r : trace (logged evs r) = evs ++ trace r.
Proof. done. Qed.

Lemma getitem_inr {V} (d : gmap genotype V) k v :
  getitem d k = inr v ↔ d !! k = Some v.
Proof. unfold getitem. destruct (d !! k); naive_solver. Qed.

Lemma getitem_inl {V} (d : gmap genotype V) k e :
  getitem d k = inl e → e = KeyError k ∧ d !! k = None.
Proof. unfold getitem. destruct (d !! k); naive_solver. Qed.

(** The two messages of [monte_carlo] cannot be confused. *)
Lemma stuck_msg_not_max_moves_msg s : stuck_msg +:+ s ≠ max_moves_msg.
Proof. discriminate. Qed.

Lemma repeats_snoc (v : list genotype) x :
  repeats (v ++ [x]) =
  (repeats v + if bool_decide (last v = Some x) then 1 else 0)%nat.
Proof.
  induction v as [|a [|b v] IH]; [done| |].
  - simpl. rewrite (bool_decide_ext (x = a) (Some a = Some x)) by naive_solver.
    lia.
  - change (repeats ((a :: b :: v) ++ [x])) with
      ((if bool_decide (b = a) then 1 else 0) + repeats ((b :: v) ++ [x]))%nat.
    rewrite IH. change (last (a :: b :: v)) with (last (b :: v)).
    simpl. lia.
Qed.

Lemma count_events_app f t1 t2 :
  count_events f (t1 ++ t2) = (count_events f t1 + count_events f t2)%nat.
Proof. unfold count_events. by rewrite List.filter_app, length_app. Qed.

Section monte_carlo_facts.
Context {num mut : Type} `{!Numeric num}.
Variable gpm : GenotypePhenotypeMap num mut.
Variable tools : Tools mut.
Variable source target : genotype.
Variable model : num → num → num.
Variable max_moves : Z.
Variable forward return_bad : bool.

Local Abbreviation nbrs := (neighbors_method gpm tools source forward).
Local Abbreviation obs := (observe gpm tools source model forward).
Local Abbreviation loop :=
  (mc_loop gpm tools source target model max_moves forward return_bad).

Lemma first_masked_elem (ms : list genotype) (cd : list num) x new :
  first_masked ms cd x = Some new → new ∈ ms.
Proof.
  revert cd. induction ms as [|m ms IH]; intros [|c cd] Hsel; simplify_eq/=.
  destruct (geb c x); simplify_eq; [left | right; eauto].
Qed.

Lemma model_calls_ok current fitness0 ns evs outs :
  model_calls gpm model current fitness0 ns = (evs, inr outs) →
  evs = CallModel current <$> ns ∧
  Forall2 (λ n out, ∃ fitness1,
    mapping_p gpm !! n = Some fitness1 ∧ out = model fitness0 fitness1) ns outs.
Proof.
  revert evs outs. induction ns as [|n ns IH]; intros evs outs Hcalls; simpl in *.
  { by simplify_eq. }
  destruct (getitem (mapping_p gpm) n) as [e|fitness1] eqn:Hn; [by simplify_eq|].
  destruct (model_calls gpm model current fitness0 ns) as [evs' [e|outs']];
    simplify_eq.
  destruct (IH _ _ eq_refl) as [-> Hall]. split; [done|].
  constructor; [|done]. exists fitness1. by rewrite <-getitem_inr.
Qed.

Lemma model_calls_events current fitness0 ns evs r :
  model_calls gpm model current fitness0 ns = (evs, r) →
  ∃ called, called `prefix_of` ns ∧ evs = CallModel current <$> called.
Proof.
  revert evs r. induction ns as [|n ns IH]; intros evs r Hcalls; simpl in *.
  { simplify_eq. by exists []. }
  destruct (getitem (mapping_p gpm) n) as [e|fitness1].
  { simplify_eq. exists []. split; [apply prefix_nil | done]. }
  destruct (model_calls gpm model current fitness0 ns) as [evs' r'] eqn:Hrest.
  destruct (IH _ _ eq_refl) as (called & Hpre & ->). simplify_eq.
  exists (n :: called). split; [by apply prefix_cons | done].
Qed.

(** The shape of a successful pass through lines 65-77. *)
Lemma observe_ok current evs o :
  obs current = (evs, inr o) →
  ∃ fitness0 outs,
    mapping_p gpm !! current = Some fitness0 ∧
    model_calls gpm model current fitness0 (nbrs current)
    = (CallModel current <$> nbrs current, inr outs) ∧
    evs = CallNeighbors current :: (CallModel current <$> nbrs current) ∧
    neighbors o = nbrs current ∧
    moves o = nbrs current ++ [current] ∧
    fixations o = nan_to_num <$> outs ∧
    trans_prob o =
      (λ x, div x (of_int (Z.of_nat (length (nbrs current)) + 1))) <$> fixations o ∧
    self_prob o = sub (of_int 1) (np_sum (trans_prob o)) ∧
    probs o = trans_prob o ++ [self_prob o].
Proof.
  unfold observe. intros Hobs.
  destruct (getitem (mapping_p gpm) current) as [e|fitness0] eqn:Hcur; [by simplify_eq|].
  destruct (model_calls gpm model current fitness0 (nbrs current))
    as [evs' [e|outs]] eqn:Hcalls; simplify_eq.
  destruct (model_calls_ok _ _ _ _ _ Hcalls) as [-> _].
  exists fitness0, outs. by rewrite <-getitem_inr.
Qed.

Lemma observe_events current evs r :
  obs current = (evs, r) →
  ∀ a b, CallModel a b ∈ evs → a = current ∧ b ∈ nbrs current.
Proof.
  unfold observe. intros Hobs a b Hin.
  destruct (getitem (mapping_p gpm) current) as [e|fitness0].
  { simplify_eq. by apply elem_of_nil in Hin. }
  destruct (model_calls gpm model current fitness0 (nbrs current))
    as [evs' r'] eqn:Hcalls.
  destruct (model_calls_events _ _ _ _ _ Hcalls) as (called & Hpre & ->).
  simplify_eq. apply elem_of_cons in Hin as [?|Hin]; [done|].
  apply list_elem_of_fmap in Hin as (n & ? & Hn). simplify_eq.
  split; [done|]. destruct Hpre as [rest ->]. apply elem_of_app; by left.
Qed.

(** The only failure of lines 65-77 is a genotype missing from the
    mapping. *)
Lemma model_calls_fault current fitness0 ns evs e :
  model_calls gpm model current fitness0 ns = (evs, inl e) → ∃ key, e = KeyError key.
Proof.
  revert evs. induction ns as [|n ns IH]; intros evs Hcalls; simpl in *; [done|].
  destruct (getitem (mapping_p gpm) n) as [e'|fitness1] eqn:Hn.
  { simplify_eq. apply getitem_inl in Hn as [-> _]. by eexists. }
  destruct (model_calls gpm model current fitness0 ns) as [evs' [e'|outs]];
    simplify_eq. by eapply IH.
Qed.

Lemma observe_fault current evs e :
  obs current = (evs, inl e) → ∃ key, e = KeyError key.
Proof.
  unfold observe. intros Hobs.
  destruct (getitem (mapping_p gpm) current) as [e'|fitness0] eqn:Hcur.
  { simplify_eq. apply getitem_inl in Hcur as [-> _]. by eexists. }
  destruct (model_calls gpm model current fitness0 (nbrs current))
    as [evs' [e'|outs]] eqn:Hcalls; simplify_eq.
  by eapply model_calls_fault.
Qed.

(** Case analysis along the control flow of the loop: one case per way of
    leaving it, and one for an iteration that goes round. *)
Lemma mc_loop_cases (P : list num → list genotype → Z → run → Prop) :
  (∀ tape visited nmoves,
     last visited = None →
     P tape visited nmoves (Run (Raise IndexError) visited nmoves [])) →
  (∀ tape visited nmoves current,
     last visited = Some current →
     nmoves > max_moves →
     P tape visited nmoves (Run (Raise (EvolverError max_moves_msg)) visited nmoves [])) →
  (∀ tape visited nmoves,
     last visited = Some target →
     nmoves ≤ max_moves →
     P tape visited nmoves (Run (Return visited) visited nmoves [])) →
  (∀ tape visited nmoves current evs e,
     last visited = Some current → current ≠ target → nmoves ≤ max_moves →
     obs current = (evs, inl e) →
     P tape visited nmoves (Run (Raise e) visited nmoves evs)) →
  (∀ tape visited nmoves current evs o,
     last visited = Some current → current ≠ target → nmoves ≤ max_moves →
     obs current = (evs, inr o) →
     eqb (self_prob o) (of_int 1) = true →
     P tape visited nmoves
       (Run (if return_bad then Return visited
             else Raise (EvolverError (stuck_msg +:+ str_tuple visited)))
          visited nmoves evs)) →
  (∀ visited nmoves current evs o,
     last visited = Some current → current ≠ target → nmoves ≤ max_moves →
     obs current = (evs, inr o) →
     eqb (self_prob o) (of_int 1) = false →
     P [] visited nmoves (Run Unfinished visited nmoves evs)) →
  (∀ mc_number tape visited nmoves current evs o,
     last visited = Some current → current ≠ target → nmoves ≤ max_moves →
     obs current = (evs, inr o) →
     eqb (self_prob o) (of_int 1) = false →
     first_masked (moves o) (cumulative_dist (probs o)) mc_number = None →
     P (mc_number :: tape) visited nmoves
       (Run (Raise IndexError) visited nmoves (evs ++ [CallRandom]))) →
  (∀ mc_number tape visited nmoves current evs o new,
     last visited = Some current → current ≠ target → nmoves ≤ max_moves →
     obs current = (evs, inr o) →
     eqb (self_prob o) (of_int 1) = false →
     first_masked (moves o) (cumulative_dist (probs o)) mc_number = Some new →
     P tape (visited ++ [new]) (nmoves + 1) (loop tape (visited ++ [new]) (nmoves + 1)) →
     P (mc_number :: tape) visited nmoves
       (logged (evs ++ [CallRandom]) (loop tape (visited ++ [new]) (nmoves + 1)))) →
  ∀ tape visited nmoves, P tape visited nmoves (loop tape visited nmoves).
Proof.
  intros Hempty Hmax Hret Hfault Hstuck Hstarved Hnone Hstep tape.
  induction tape as [|mc_number tape IH]; intros visited nmoves; simpl.
  all: destruct (last visited) as [current|] eqn:Hlast; [|by apply Hempty].
  all: destruct (bool_decide (current ≠ target)) eqn:Hcur;
    destruct (bool_decide (nmoves ≤ max_moves)) eqn:Hle; simpl.
  all: try (apply bool_decide_eq_false in Hle; rewrite bool_decide_true by lia;
    eapply Hmax; [done | lia]).
  all: try (apply bool_decide_eq_false in Hcur; apply dec_stable in Hcur;
    subst current; apply bool_decide_eq_true in Hle;
    rewrite bool_decide_false by lia; by apply Hret).
  all: apply bool_decide_eq_true in Hcur, Hle.
  all: destruct (obs current) as [evs [e|o]] eqn:Hobs.
  all: try (unfold logged; simpl; rewrite app_nil_r; by eapply Hfault).
  all: destruct (eqb (self_prob o) (of_int 1)) eqn:Hself.
  all: try match goal with
    | |- _ ?t _ _ (logged _ (if _ then _ else _)) =>
      specialize (Hstuck t visited nmoves current evs o Hlast Hcur Hle Hobs Hself);
      destruct return_bad; unfold logged; simpl; by rewrite app_nil_r
    end.
  - unfold logged; simpl; rewrite app_nil_r. by eapply Hstarved.
  - destruct (first_masked (moves o) (cumulative_dist (probs o)) mc_number)
      as [new|] eqn:Hsel.
    + specialize (Hstep mc_number tape visited nmoves current evs o new
        Hlast Hcur Hle Hobs Hself Hsel (IH _ _)).
      unfold logged in *. simpl. by rewrite <-app_assoc in Hstep.
    + unfold logged; simpl. by eapply Hnone.
Qed.
(** A returned tuple is the tuple [visited] at the end of the call. *)
Lemma mc_loop_returned tape visited nmoves v :
  result (loop tape visited nmoves) = Return v →
  v = final_visited (loop tape visited nmoves).
Proof.
  revert tape visited nmoves.
  apply (mc_loop_cases (λ _ _ _ r, result r = Return v → v = final_visited r));
    simpl; intros; try destruct return_bad; naive_solver.
Qed.

(** The loop only ever extends [visited] at its end. *)
Lemma mc_loop_prefix tape visited nmoves :
  visited `prefix_of` final_visited (loop tape visited nmoves).
Proof.
  revert tape visited nmoves.
  apply (mc_loop_cases (λ _ visited _ r, visited `prefix_of` final_visited r));
    simpl; intros; try done.
  etrans; [|done]. by apply prefix_app_r.
Qed.

Lemma mc_loop_return_last tape visited nmoves v :
  result (loop tape visited nmoves) = Return v →
  last v = Some target ∨
  (return_bad = true ∧ ∃ current evs o,
     last v = Some current ∧ current ≠ target ∧
     obs current = (evs, inr o) ∧ eqb (self_prob o) (of_int 1) = true).
Proof.
  revert tape visited nmoves.
  apply (mc_loop_cases (λ _ _ _ r, result r = Return v → _)); simpl; intros;
    simplify_eq; auto.
  destruct return_bad; simplify_eq. right. naive_solver.
Qed.

Lemma mc_loop_evolver_error tape visited nmoves msg :
  result (loop tape visited nmoves) = Raise (EvolverError msg) →
  let r := loop tape visited nmoves in
  (msg = max_moves_msg ∧ final_count r > max_moves) ∨
  (msg = stuck_msg +:+ str_tuple (final_visited r) ∧ return_bad = false ∧
   final_count r ≤ max_moves ∧ last (final_visited r) ≠ Some target).
Proof.
  revert tape visited nmoves.
  apply (mc_loop_cases (λ _ _ _ r, result r = Raise (EvolverError msg) →
    (msg = max_moves_msg ∧ final_count r > max_moves) ∨
    (msg = stuck_msg +:+ str_tuple (final_visited r) ∧ return_bad = false ∧
     final_count r ≤ max_moves ∧ last (final_visited r) ≠ Some target)));
    simpl; intros; simplify_eq; auto.
  - match goal with H : obs _ = _ |- _ => by apply observe_fault in H as [? ?] end.
  - destruct return_bad; simplify_eq. right. repeat split; try done. congruence.
Qed.

(** Once the counter is above [max_moves] the call ends in the error of
    line 95, whatever [return_bad] says. *)
Lemma mc_loop_over_budget tape visited nmoves :
  visited ≠ [] →
  final_count (loop tape visited nmoves) > max_moves →
  result (loop tape visited nmoves) = Raise (EvolverError max_moves_msg).
Proof.
  revert tape visited nmoves.
  apply (mc_loop_cases (λ _ visited _ r, visited ≠ [] →
    final_count r > max_moves → result r = Raise (EvolverError max_moves_msg)));
    simpl; intros; try done; try lia.
  - by destruct visited using rev_ind; [|rewrite last_snoc in *].
  - match goal with H : _ |- _ => apply H; [|done] end.
    by intros ?%app_eq_nil%proj2.
Qed.

Lemma mc_loop_at_target tape visited nmoves :
  let r := loop tape visited nmoves in
  last (final_visited r) = Some target →
  final_count r ≤ max_moves →
  result r = Return (final_visited r).
Proof.
  revert tape visited nmoves.
  apply (mc_loop_cases (λ _ _ _ r, last (final_visited r) = Some target →
    final_count r ≤ max_moves → result r = Return (final_visited r)));
    simpl; intros; simplify_eq; try done; try lia; auto.
Qed.

(** Every genotype appended by the loop is the current genotype or one of
    its enumerated neighbors. *)
Lemma mc_loop_moves tape visited nmoves i a b :
  let r := loop tape visited nmoves in
  (length visited ≤ S i)%nat →
  final_visited r !! i = Some a → final_visited r !! S i = Some b →
  b = a ∨ b ∈ nbrs a.
Proof.
  revert tape visited nmoves.
  apply (mc_loop_cases (λ _ visited _ r, (length visited ≤ S i)%nat →
    final_visited r !! i = Some a → final_visited r !! S i = Some b →
    b = a ∨ b ∈ nbrs a)); simpl;
    try (intros; match goal with
      H : ?v !! S i = Some _, H' : (length ?v ≤ S i)%nat |- _ =>
        apply lookup_lt_Some in H; lia end).
  intros mc_number tape visited nmoves current evs o new
    Hlast Hcur Hle Hobs Hself Hsel IH Hlen Ha Hb.
  destruct (decide (length visited = S i)) as [Heq|Hne].
  - pose proof (mc_loop_prefix tape (visited ++ [new]) (nmoves + 1)) as [rest Hrest].
    rewrite Hrest in Ha, Hb.
    rewrite <-(assoc_L (++)) in Ha, Hb.
    rewrite lookup_app_l in Ha by lia.
    rewrite lookup_app_r in Hb by lia.
    replace (S i - length visited)%nat with 0%nat in Hb by lia. simpl in Hb.
    assert (last visited = Some a) as Hlast'.
    { rewrite last_lookup. rewrite Heq. done. }
    simplify_eq.
    apply first_masked_elem in Hsel.
    destruct (observe_ok _ _ _ Hobs) as (? & ? & _ & _ & _ & _ & Hmoves & _).
    rewrite Hmoves in Hsel. apply elem_of_app in Hsel as [?|Hcur']; [by right|].
    apply list_elem_of_singleton in Hcur'. by left.
  - apply IH; [|done..]. rewrite length_app. simpl. lia.
Qed.

(** The model is only ever called on a genotype and one of its enumerated
    neighbors. *)
Lemma mc_loop_model_calls tape visited nmoves a b :
  CallModel a b ∈ trace (loop tape visited nmoves) → b ∈ nbrs a.
Proof.
  revert tape visited nmoves.
  apply (mc_loop_cases (λ _ _ _ r, CallModel a b ∈ trace r → b ∈ nbrs a));
    simpl; intros; try by (exfalso; eapply not_elem_of_nil).
  all: repeat match goal with
    | H : _ ∈ _ ++ _ |- _ => apply elem_of_app in H as [H|H]
    | H : _ ∈ [CallRandom] |- _ => apply list_elem_of_singleton in H; simplify_eq
    | H : obs ?c = _, H' : CallModel _ _ ∈ _ |- _ =>
      destruct (observe_events _ _ _ H _ _ H') as [-> ?]
    end; auto.
Qed.

(** [max_moves + 1] draws are enough for any call to end. *)
Lemma mc_loop_finishes tape visited nmoves :
  (Z.to_nat (max_moves + 1 - nmoves) ≤ length tape)%nat →
  result (loop tape visited nmoves) ≠ Unfinished.
Proof.
  revert tape visited nmoves.
  apply (mc_loop_cases (λ tape _ nmoves r,
    (Z.to_nat (max_moves + 1 - nmoves) ≤ length tape)%nat → result r ≠ Unfinished));
    simpl; intros; try done.
  - by destruct return_bad.
  - lia.
  - match goal with H : _ |- _ => apply H end. lia.
Qed.
End monte_carlo_facts.

Section metropolis_facts.
Context {num mut : Type} `{!Numeric num}.
Variable gpm : GenotypePhenotypeMap num mut.
Variable tools : Tools mut.
Variable source target : genotype.
Variable model : num → num → num.
Variable max_fails : Z.

Local Abbreviation cands := (candidates gpm tools).
Local Abbreviation mloop := (metropolis_loop gpm tools target model max_fails).

(** One unfolding of the loop at a state where the body runs and both
    lookups and the pick succeed. *)
Lemma metropolis_loop_step pick mc_number tape visited fails current proposed
    fitness0 fitness1 :
  last visited = Some current → current ≠ target → fails ≤ max_fails →
  phenotypes gpm !! current = Some fitness0 →
  cands current !! pick = Some proposed →
  phenotypes gpm !! proposed = Some fitness1 →
  mloop ((pick, mc_number) :: tape) visited fails =
    if ltb mc_number (model fitness0 fitness1) then
      logged [CallNeighbors current; CallRandom; CallModel current proposed;
              CallRandom; Accepted current proposed]
        (mloop tape (visited ++ [proposed]) fails)
    else
      logged [CallNeighbors current; CallRandom; CallModel current proposed;
              CallRandom; Rejected current proposed]
        (mloop tape (visited ++ [current]) (fails + 1)).
Proof.
  intros Hlast Hcur Hle H0 Hpick H1. simpl. rewrite Hlast.
  rewrite !bool_decide_true by done. simpl.
  apply getitem_inr in H0, H1. rewrite H0, Hpick, H1.
  by destruct (ltb mc_number (model fitness0 fitness1)).
Qed.

Lemma metropolis_loop_empty tape visited fails :
  last visited = None →
  mloop tape visited fails = Run (Raise IndexError) visited fails [].
Proof. intros Hlast. destruct tape as [|[? ?] ?]; simpl; by rewrite Hlast. Qed.

(** Lines 155-157, reached when the loop condition fails. *)
Lemma metropolis_loop_exit tape visited fails current :
  last visited = Some current →
  current = target ∨ fails > max_fails →
  mloop tape visited fails =
    if bool_decide (fails > max_fails)
    then Run (Raise (EvolverError max_moves_msg)) visited fails []
    else Run (Return visited) visited fails [].
Proof.
  intros Hlast Hexit.
  assert (bool_decide (current ≠ target) && bool_decide (fails ≤ max_fails) = false)
    as Hcond.
  { apply andb_false_iff. destruct Hexit as [->|Hgt].
    - left. apply bool_decide_eq_false. naive_solver.
    - right. apply bool_decide_eq_false. lia. }
  destruct tape as [|[? ?] ?]; simpl; by rewrite Hlast, Hcond.
Qed.

(** The loop body up to the draw. *)
Lemma metropolis_loop_enter tape visited fails current :
  last visited = Some current → current ≠ target → fails ≤ max_fails →
  mloop tape visited fails =
    match phenotypes gpm !! current with
    | None => Run (Raise (KeyError current)) visited fails []
    | Some fitness0 =>
      match tape with
      | [] => Run Unfinished visited fails [CallNeighbors current]
      | (pick, mc_number) :: tape' =>
        match cands current !! pick with
        | None => Run BadDraw visited fails [CallNeighbors current; CallRandom]
        | Some proposed =>
          match phenotypes gpm !! proposed with
          | None => Run (Raise (KeyError proposed)) visited fails
                      [CallNeighbors current; CallRandom]
          | Some fitness1 => mloop tape visited fails
          end
        end
      end
    end.
Proof.
  intros Hlast Hcur Hle.
  destruct tape as [|[pick mc_number] tape]; simpl; rewrite Hlast;
    rewrite !bool_decide_true by done; simpl; unfold getitem;
    destruct (phenotypes gpm !! current); try done.
  destruct (cands current !! pick) as [proposed|]; try done.
  by destruct (phenotypes gpm !! proposed).
Qed.

(** Case analysis along the control flow of the loop. *)
Lemma metropolis_loop_cases (P : list (nat * num) → list genotype → Z → run → Prop) :
  (∀ tape visited fails,
     last visited = None →
     P tape visited fails (Run (Raise IndexError) visited fails [])) →
  (∀ tape visited fails current,
     last visited = Some current →
     fails > max_fails →
     P tape visited fails (Run (Raise (EvolverError max_moves_msg)) visited fails [])) →
  (∀ tape visited fails,
     last visited = Some target →
     fails ≤ max_fails →
     P tape visited fails (Run (Return visited) visited fails [])) →
  (∀ tape visited fails current,
     last visited = Some current → current ≠ target → fails ≤ max_fails →
     phenotypes gpm !! current = None →
     P tape visited fails (Run (Raise (KeyError current)) visited fails [])) →
  (∀ visited fails current fitness0,
     last visited = Some current → current ≠ target → fails ≤ max_fails →
     phenotypes gpm !! current = Some fitness0 →
     P [] visited fails (Run Unfinished visited fails [CallNeighbors current])) →
  (∀ pick mc_number tape visited fails current fitness0,
     last visited = Some current → current ≠ target → fails ≤ max_fails →
     phenotypes gpm !! current = Some fitness0 →
     cands current !! pick = None →
     P ((pick, mc_number) :: tape) visited fails
       (Run BadDraw visited fails [CallNeighbors current; CallRandom])) →
  (∀ pick mc_number tape visited fails current fitness0 proposed,
     last visited = Some current → current ≠ target → fails ≤ max_fails →
     phenotypes gpm !! current = Some fitness0 →
     cands current !! pick = Some proposed →
     phenotypes gpm !! proposed = None →
     P ((pick, mc_number) :: tape) visited fails
       (Run (Raise (KeyError proposed)) visited fails
          [CallNeighbors current; CallRandom])) →
  (∀ pick mc_number tape visited fails current fitness0 proposed fitness1,
     last visited = Some current → current ≠ target → fails ≤ max_fails →
     phenotypes gpm !! current = Some fitness0 →
     cands current !! pick = Some proposed →
     phenotypes gpm !! proposed = Some fitness1 →
     ltb mc_number (model fitness0 fitness1) = true →
     P tape (visited ++ [proposed]) fails (mloop tape (visited ++ [proposed]) fails) →
     P ((pick, mc_number) :: tape) visited fails
       (logged [CallNeighbors current; CallRandom; CallModel current proposed;
                CallRandom; Accepted current proposed]
          (mloop tape (visited ++ [proposed]) fails))) →
  (∀ pick mc_number tape visited fails current fitness0 proposed fitness1,
     last visited = Some current → current ≠ target → fails ≤ max_fails →
     phenotypes gpm !! current = Some fitness0 →
     cands current !! pick = Some proposed →
     phenotypes gpm !! proposed = Some fitness1 →
     ltb mc_number (model fitness0 fitness1) = false →
     P tape (visited ++ [current]) (fails + 1)
       (mloop tape (visited ++ [current]) (fails + 1)) →
     P ((pick, mc_number) :: tape) visited fails
       (logged [CallNeighbors current; CallRandom; CallModel current proposed;
                CallRandom; Rejected current proposed]
          (mloop tape (visited ++ [current]) (fails + 1)))) →
  ∀ tape visited fails, P tape visited fails (mloop tape visited fails).
Proof.
  intros Hempty Hmax Hret Hkey Hstarved Hbad Hkey' Haccept Hreject tape.
  induction tape as [|[pick mc_number] tape IH]; intros visited fails.
  all: destruct (last visited) as [current|] eqn:Hlast;
    [|rewrite metropolis_loop_empty by done; by apply Hempty].
  all: destruct (decide (fails ≤ max_fails)) as [Hle|Hgt];
    [|rewrite (metropolis_loop_exit _ _ _ current) by (done || (right; lia));
      rewrite bool_decide_true by lia; eapply Hmax; [done | lia]].
  all: destruct (decide (current = target)) as [->|Hcur];
    [rewrite (metropolis_loop_exit _ _ _ target) by (done || by left);
     rewrite bool_decide_false by lia; by apply Hret|].
  all: rewrite (metropolis_loop_enter _ _ _ current) by done.
  all: destruct (phenotypes gpm !! current) as [fitness0|] eqn:H0;
    [|by eapply Hkey].
  - by eapply Hstarved.
  - destruct (cands current !! pick) as [proposed|] eqn:Hpick; [|by eapply Hbad].
    destruct (phenotypes gpm !! proposed) as [fitness1|] eqn:H1;
      [|by eapply Hkey'].
    rewrite (metropolis_loop_step _ _ _ _ _ _ _ _ _ Hlast Hcur Hle H0 Hpick H1).
    destruct (ltb mc_number (model fitness0 fitness1)) eqn:Hlt.
    + by eapply Haccept.
    + by eapply Hreject.
Qed.
Lemma metropolis_loop_returned tape visited fails v :
  result (mloop tape visited fails) = Return v →
  v = final_visited (mloop tape visited fails) ∧ last v = Some target.
Proof.
  revert tape visited fails.
  apply (metropolis_loop_cases (λ _ _ _ r, result r = Return v →
    v = final_visited r ∧ last v = Some target)); simpl; intros;
    simplify_eq; auto.
Qed.

Lemma metropolis_loop_prefix tape visited fails :
  visited `prefix_of` final_visited (mloop tape visited fails).
Proof.
  revert tape visited fails.
  apply (metropolis_loop_cases (λ _ visited _ r, visited `prefix_of` final_visited r));
    simpl; intros; try done; (etrans; [|done]); by apply prefix_app_r.
Qed.

(** The only [EvolverError] of the Metropolis walker is the one of line 156,
    raised with the failure counter above [max_fails]. *)
Lemma metropolis_loop_evolver_error tape visited fails msg :
  result (mloop tape visited fails) = Raise (EvolverError msg) →
  msg = max_moves_msg ∧ final_count (mloop tape visited fails) > max_fails.
Proof.
  revert tape visited fails.
  apply (metropolis_loop_cases (λ _ _ _ r, result r = Raise (EvolverError msg) →
    msg = max_moves_msg ∧ final_count r > max_fails)); simpl; intros;
    simplify_eq; auto.
Qed.

Lemma metropolis_loop_over_budget tape visited fails :
  visited ≠ [] →
  final_count (mloop tape visited fails) > max_fails →
  result (mloop tape visited fails) = Raise (EvolverError max_moves_msg).
Proof.
  revert tape visited fails.
  apply (metropolis_loop_cases (λ _ visited _ r, visited ≠ [] →
    final_count r > max_fails → result r = Raise (EvolverError max_moves_msg)));
    simpl; intros; try done; try lia.
  - by destruct visited using rev_ind; [|rewrite last_snoc in *].
  - match goal with H : _ |- _ => apply H; [|done] end.
    by intros ?%app_eq_nil%proj2.
  - match goal with H : _ |- _ => apply H; [|done] end.
    by intros ?%app_eq_nil%proj2.
Qed.

(** The failure counter can only pass [max_fails] on a rejected step, and a
    rejected step leaves the walk on a genotype other than the target. *)
Lemma metropolis_loop_budget tape visited fails :
  fails ≤ max_fails ∨ last visited ≠ Some target →
  let r := mloop tape visited fails in
  final_count r ≤ max_fails ∨ last (final_visited r) ≠ Some target.
Proof.
  revert tape visited fails.
  apply (metropolis_loop_cases (λ _ visited fails r,
    fails ≤ max_fails ∨ last visited ≠ Some target →
    final_count r ≤ max_fails ∨ last (final_visited r) ≠ Some target));
    simpl; intros; auto.
  match goal with H : _ |- _ => apply H end.
  right. rewrite last_snoc. congruence.
Qed.

Lemma metropolis_loop_at_target tape visited fails :
  let r := mloop tape visited fails in
  last (final_visited r) = Some target →
  final_count r ≤ max_fails →
  result r = Return (final_visited r).
Proof.
  revert tape visited fails.
  apply (metropolis_loop_cases (λ _ _ _ r, last (final_visited r) = Some target →
    final_count r ≤ max_fails → result r = Return (final_visited r)));
    simpl; intros; simplify_eq; try done; try lia; auto.
Qed.
(** Bookkeeping of the failure counter and of repeated entries: a rejected
    step adds one to both, an accepted proposal of the current genotype
    adds a repeated entry only. *)
Lemma metropolis_loop_counts tape visited fails :
  let r := mloop tape visited fails in
  final_count r = fails + Z.of_nat (count_events is_rejection (trace r)) ∧
  repeats (final_visited r) =
    (repeats visited + count_events is_rejection (trace r) +
     count_events is_accepted_stay (trace r))%nat.
Proof.
  revert tape visited fails.
  apply (metropolis_loop_cases (λ _ visited fails r,
    final_count r = fails + Z.of_nat (count_events is_rejection (trace r)) ∧
    repeats (final_visited r) =
      (repeats visited + count_events is_rejection (trace r) +
       count_events is_accepted_stay (trace r))%nat));
    try (unfold count_events; simpl; intros; split; (lia || done)).
  - intros pick mc_number tape visited fails current fitness0 proposed fitness1
      Hlast _ _ _ _ _ _ [IHc IHr].
    rewrite logged_final_count, logged_final_visited, logged_trace.
    rewrite !count_events_app, IHc, IHr, repeats_snoc, Hlast.
    unfold count_events. simpl.
    rewrite (bool_decide_ext (Some current = Some proposed) (proposed = current))
      by naive_solver.
    case_bool_decide; simpl; split; lia.
  - intros pick mc_number tape visited fails current fitness0 proposed fitness1
      Hlast _ _ _ _ _ _ [IHc IHr].
    rewrite logged_final_count, logged_final_visited, logged_trace.
    rewrite !count_events_app, IHc, IHr, repeats_snoc, Hlast.
    unfold count_events. simpl.
    rewrite bool_decide_true by done. split; lia.
Qed.
End metropolis_facts.

Section simulate_facts.
Context {num : Type}.
Variable self : MarkovChain num.

(** The invariant of the loop of [simulate]: the path ends at the current
    state, and no state before the last is a mutant. *)
Lemma simulate_loop_returned tape StateCurr p l :
  last p = Some StateCurr →
  (∀ i g, (S i < length p)%nat → p !! i = Some g → g ∉ mutant self) →
  simulate_loop self tape StateCurr p = Return l →
  p `prefix_of` path l ∧
  (∃ m, last (path l) = Some m ∧ m ∈ mutant self) ∧
  ∀ i g, (S i < length (path l))%nat → path l !! i = Some g → g ∉ mutant self.
Proof.
  revert StateCurr p. induction tape as [|drawn tape IH];
    intros StateCurr p Hlast Hbefore; simpl.
  all: case_bool_decide as Hmut;
    [|intros [= <-]; simpl; split_and!; [done | by eauto | done]].
  all: destruct (list_index StateCurr (genotypes self)) as [row|]; [|done].
  all: destruct (rows (tm self) !! row) as [pmf|]; [|done].
  { done. }
  case_bool_decide; [|done].
  destruct (genotypes self !! drawn) as [state_drawn|]; [|done].
  intros Hret. apply IH in Hret as (Hpre & Hlast' & Hbefore').
  - split; [|done]. etrans; [|done]. by apply prefix_app_r.
  - apply last_snoc.
  - intros i g Hi Hg. rewrite length_app in Hi. simpl in Hi.
    rewrite lookup_app_l in Hg by lia.
    destruct (decide (S i = length p)) as [Heq|Hne].
    + rewrite last_lookup, <-Heq in Hlast. simpl in Hlast. congruence.
    + apply (Hbefore i); [lia | done].
Qed.
End simulate_facts.

(** ** Auxiliary facts for the claims *)

(** A walk started from a single genotype has a non-empty [visited]. *)
Lemma singleton_not_nil (g : genotype) : [g] ≠ [].
Proof. done. Qed.

Lemma head_of_prefix (g : genotype) (v : list genotype) :
  [g] `prefix_of` v → head v = Some g.
Proof. by intros [rest ->]. Qed.

Lemma occurrences_not_elem c (a : list genotype) : c ∉ a → occurrences c a = 0%nat.
Proof.
  unfold occurrences. induction a as [|x a IH]; [done|].
  intros [Hne Hnot]%not_elem_of_cons. simpl.
  rewrite bool_decide_false by done. by apply IH.
Qed.

Lemma occurrences_NoDup c (a : list genotype) :
  NoDup a → c ∈ a → occurrences c a = 1%nat.
Proof.
  unfold occurrences. induction 1 as [|x a Hnot Hdup IH]; intros Hin.
  { by apply elem_of_nil in Hin. }
  simpl. apply elem_of_cons in Hin as [->|Hin].
  - rewrite bool_decide_true by done. simpl. f_equal.
    by apply occurrences_not_elem.
  - rewrite bool_decide_false by (intros ->; done). by apply IH.
Qed.

(** The enumerator of the two-site landscape only lists genotypes one
    mutation away. *)
Lemma flip_changes (c : ascii) : TwoSite.flip c ≠ c.
Proof.
  unfold TwoSite.flip. destruct (Ascii.eqb c "0") eqn:Hc.
  - apply Ascii.eqb_eq in Hc as ->. done.
  - apply Ascii.eqb_neq in Hc. done.
Qed.

Lemma flips_one_mutation (g n : genotype) :
  n ∈ TwoSite.flips g tt → one_mutation (λ _, True) g n.
Proof.
  destruct g as [|a [|b [|c g]]]; simpl; try by intros ?%elem_of_nil.
  pose proof (flip_changes a). pose proof (flip_changes b).
  intros [->|[->|?%elem_of_nil]%elem_of_cons]%elem_of_cons; [| |done].
  - split; [done|]. exists 0%nat. split_and!; [done | simpl; congruence |].
    by intros [|[|j]].
  - split; [done|]. exists 1%nat. split_and!; [done | simpl; congruence |].
    by intros [|[|j]].
Qed.

(** ** The claims *)

(** C1 (as stated it fails for [return_bad]).  A returned trajectory starts
    at the source (the wildtype for [simulate]).  It ends at the target for
    the Metropolis walker and for [monte_carlo] called with [return_bad]
    false; with [return_bad] true [monte_carlo] may also return the partial
    trajectory of a stuck walk, which ends at a genotype other than the
    target.  The path of [simulate] ends in the mutant set and none of its
    earlier entries is a mutant. *)
Theorem trajectory_endpoints {num mut} `{!Numeric num}
    (gpm : GenotypePhenotypeMap num mut) (tools : Tools mut)
    (source target : genotype) (model : num → num → num) (max_moves max_fails : Z)
    (forward return_bad : bool) (tape : list num) (tape_m : list (nat * num))
    (chain : MarkovChain num) (tape_s : list nat) :
  (∀ v,
     result (monte_carlo gpm tools source target model max_moves forward
               return_bad tape) = Return v →
     head v = Some source ∧
     (return_bad = false → last v = Some target) ∧
     (last v = Some target ∨
      ∃ current evs o,
        last v = Some current ∧ current ≠ target ∧
        observe gpm tools source model forward current = (evs, inr o) ∧
        eqb (self_prob o) (of_int 1) = true)) ∧
  (∀ v,
     result (monte_carlo_metropolis_criterion gpm tools source target model
               max_fails tape_m) = Return v →
     head v = Some source ∧ last v = Some target) ∧
  (∀ l,
     simulate chain tape_s = Return l →
     head (path l) = Some (binary_wildtype chain) ∧
     (∃ m, last (path l) = Some m ∧ m ∈ mutant chain) ∧
     ∀ i g, (S i < length (path l))%nat → path l !! i = Some g → g ∉ mutant chain).
Proof.
  split_and!.
  - intros v Hret. unfold monte_carlo in *.
    pose proof (mc_loop_returned _ _ _ _ _ _ _ _ _ _ _ _ Hret) as ->.
    split; [apply head_of_prefix, mc_loop_prefix|].
    destruct (mc_loop_return_last _ _ _ _ _ _ _ _ _ _ _ _ Hret)
      as [Htarget|[Hbad Hstuck]].
    + auto.
    + split; [congruence | by right].
  - intros v Hret. unfold monte_carlo_metropolis_criterion in *.
    destruct (metropolis_loop_returned _ _ _ _ _ _ _ _ _ Hret) as [-> Hlast].
    split; [apply head_of_prefix, metropolis_loop_prefix | done].
  - intros l Hret. unfold simulate in *.
    apply simulate_loop_returned in Hret as (Hpre & Hlast & Hbefore).
    + split; [by apply head_of_prefix | done].
    + done.
    + intros i g Hi. simpl in Hi. lia.
Qed.

Lemma trajectory_endpoints_witness :
  head ["00"; "10"; "11"] = Some "00" ∧ last ["00"; "10"; "11"] = Some "11".
Proof.
  destruct (trajectory_endpoints TwoSite.gpm TwoSite.tools "00" "11"
    TwoSite.always 5 5 false false [10%float; 40%float] [] TwoSite.chain [])
    as (Hmc & _ & _).
  destruct (Hmc ["00"; "10"; "11"]) as (Hhead & Hlast & _); [by vm_compute|].
  split; [exact Hhead | by apply Hlast].
Defined.

(** With [return_bad] true a stuck walk is returned although it has not
    reached the target. *)
Lemma stuck_walk_returned_off_target :
  result (monte_carlo TwoSite.gpm TwoSite.tools "00" "11" TwoSite.improving 10
            false true [])
  = Return ["00"] ∧
  last ["00"] ≠ Some "11".
Proof. split; by vm_compute. Qed.

(** C2 (as stated it fails for [monte_carlo]).  [monte_carlo] raises its
    max-moves error exactly when the move counter ends above [max_moves],
    whether or not the last move reached the target; a walk that ends on the
    target with its counter within [max_moves] returns.  The Metropolis
    walker raises its error exactly when the failure counter ends above
    [max_fails], and for a ceiling that is not negative this only happens
    off the target; a walk that ends on the target then returns. *)
Theorem ceiling_errors {num mut} `{!Numeric num}
    (gpm : GenotypePhenotypeMap num mut) (tools : Tools mut)
    (source target : genotype) (model : num → num → num) (max_moves max_fails : Z)
    (forward return_bad : bool) (tape : list num) (tape_m : list (nat * num)) :
  let r := monte_carlo gpm tools source target model max_moves forward
             return_bad tape in
  let r' := monte_carlo_metropolis_criterion gpm tools source target model
              max_fails tape_m in
  (result r = Raise (EvolverError max_moves_msg) ↔ final_count r > max_moves) ∧
  (last (final_visited r) = Some target → final_count r ≤ max_moves →
   result r = Return (final_visited r)) ∧
  ((∃ msg, result r' = Raise (EvolverError msg)) ↔ final_count r' > max_fails) ∧
  (0 ≤ max_fails → final_count r' > max_fails →
   last (final_visited r') ≠ Some target) ∧
  (0 ≤ max_fails → last (final_visited r') = Some target →
   result r' = Return (final_visited r')).
Proof.
  intros r r'. unfold r, r', monte_carlo, monte_carlo_metropolis_criterion.
  split_and!.
  - split.
    + intros Herr. apply mc_loop_evolver_error in Herr as [[_ ?]|[Hmsg _]];
        [done|]. symmetry in Hmsg. by apply stuck_msg_not_max_moves_msg in Hmsg.
    + apply mc_loop_over_budget, singleton_not_nil.
  - apply mc_loop_at_target.
  - split.
    + intros [msg Herr]. by apply metropolis_loop_evolver_error in Herr as [_ ?].
    + intros Hover. eexists. by apply metropolis_loop_over_budget.
  - intros Hmax Hover.
    destruct (metropolis_loop_budget gpm tools target model max_fails tape_m
      [source] 0) as [?|?]; [by left | lia | done].
  - intros Hmax Hlast. apply metropolis_loop_at_target; [done|].
    destruct (metropolis_loop_budget gpm tools target model max_fails tape_m
      [source] 0) as [?|?]; [by left | done | done].
Qed.

Lemma ceiling_errors_witness :
  result (monte_carlo_metropolis_criterion TwoSite.gpm TwoSite.tools "00" "11"
            TwoSite.always 5 [(2%nat, 0.5%float); (0%nat, 0.5%float); (1%nat, 0.5%float)])
  = Return ["00"; "00"; "10"; "11"].
Proof.
  destruct (ceiling_errors TwoSite.gpm TwoSite.tools "00" "11" TwoSite.always 5 5
    false false []
    [(2%nat, 0.5%float); (0%nat, 0.5%float); (1%nat, 0.5%float)])
    as (_ & _ & _ & _ & Hret).
  rewrite Hret; [by vm_compute | lia | by vm_compute].
Defined.

(** The second move reaches the target, and the call raises all the same. *)
Lemma max_moves_error_at_target :
  result (monte_carlo TwoSite.gpm TwoSite.tools "00" "11" TwoSite.always 1
            false false [10%float; 40%float])
  = Raise (EvolverError max_moves_msg) ∧
  last (final_visited
          (monte_carlo TwoSite.gpm TwoSite.tools "00" "11" TwoSite.always 1
             false false [10%float; 40%float]))
  = Some "11".
Proof. split; by vm_compute. Qed.

(** C3.  One pass through lines 65-77 of [monte_carlo] at [current]: every
    enumerated neighbor gets the move probability
    [nan_to_num (model (fitness current) (fitness neighbor)) / (len + 1)],
    which is [0 / (len + 1)] when the model output is not a number; the
    self probability is 1 minus the sum of these; the model is called once
    per neighbor, in order, on (current, neighbor), and so never on
    (current, current) as long as the enumerator does not list [current]
    among its own neighbors.  In a whole call, every model call is on a
    genotype and one of its enumerated neighbors. *)
Theorem transition_probabilities {num mut} `{!Numeric num}
    (gpm : GenotypePhenotypeMap num mut) (tools : Tools mut)
    (source : genotype) (model : num → num → num) (forward : bool)
    (current : genotype) (evs : list event) (o : observation) :
  observe gpm tools source model forward current = (evs, inr o) →
  let ns := neighbors_method gpm tools source forward current in
  let denominator := of_int (Z.of_nat (length ns) + 1) in
  neighbors o = ns ∧
  (∃ fitness0,
     mapping_p gpm !! current = Some fitness0 ∧
     Forall2 (λ n p, ∃ fitness1,
       mapping_p gpm !! n = Some fitness1 ∧
       p = div (nan_to_num (model fitness0 fitness1)) denominator ∧
       (isnan (model fitness0 fitness1) = true → p = div (of_int 0) denominator))
       ns (trans_prob o)) ∧
  self_prob o = sub (of_int 1) (np_sum (trans_prob o)) ∧
  evs = CallNeighbors current :: (CallModel current <$> ns) ∧
  (current ∉ ns → CallModel current current ∉ evs) ∧
  (∀ target max_moves return_bad tape a b,
     CallModel a b ∈ trace (monte_carlo gpm tools source target model max_moves
                             forward return_bad tape) →
     b ∈ neighbors_method gpm tools source forward a).
Proof.
  intros Hobs ns denominator.
  destruct (observe_ok _ _ _ _ _ _ _ _ Hobs)
    as (fitness0 & outs & H0 & Hcalls & -> & Hns & _ & Hfix & Htrans & Hself & _).
  apply model_calls_ok in Hcalls as [_ Hall].
  split_and!; [done | | done | done | |].
  - exists fitness0. split; [done|]. rewrite Htrans, Hfix.
    apply Forall2_fmap_r, Forall2_fmap_r.
    eapply Forall2_impl; [exact Hall|]. simpl.
    intros n out (fitness1 & H1 & ->). exists fitness1. split_and!; [done..|].
    intros Hnan. unfold nan_to_num. by rewrite Hnan.
  - intros Hnot [Hin|Hin]%elem_of_cons; [done|].
    apply list_elem_of_fmap in Hin as (n & ? & Hn). by simplify_eq.
  - intros target max_moves return_bad tape a b. apply mc_loop_model_calls.
Qed.

Lemma transition_probabilities_witness :
  ∃ evs o,
    observe TwoSite.gpm TwoSite.tools "00" TwoSite.undefined_unless_improving
      false "10" = (evs, inr o) ∧
    trans_prob o = [(0 / 3)%float; (1 / 3)%float] ∧
    self_prob o = (1 - FloatNum.sum (trans_prob o))%float ∧
    evs = [CallNeighbors "10"; CallModel "10" "00"; CallModel "10" "11"].
Proof.
  eexists _, _. split; [reflexivity|].
  destruct (transition_probabilities TwoSite.gpm TwoSite.tools "00"
    TwoSite.undefined_unless_improving false "10" _ _ eq_refl)
    as (_ & _ & Hself & Hevs & _).
  split_and!; [reflexivity | exact Hself | exact Hevs].
Defined.

(** C4.  At any step of [monte_carlo] where the computed self probability
    equals 1, the walk stops there: [visited] and the counter stay as they
    are, no random number is drawn, and the call returns [visited] when
    [return_bad] is true and raises the [EvolverError] whose message ends
    with the partial path otherwise. *)
Theorem stuck_walk_stops {num mut} `{!Numeric num}
    (gpm : GenotypePhenotypeMap num mut) (tools : Tools mut)
    (source target : genotype) (model : num → num → num) (max_moves : Z)
    (forward return_bad : bool) (tape : list num)
    (visited : list genotype) (nmoves : Z) (current : genotype)
    (evs : list event) (o : observation) :
  last visited = Some current → current ≠ target → nmoves ≤ max_moves →
  observe gpm tools source model forward current = (evs, inr o) →
  eqb (self_prob o) (of_int 1) = true →
  mc_loop gpm tools source target model max_moves forward return_bad tape
    visited nmoves
  = Run (if return_bad then Return visited
         else Raise (EvolverError (stuck_msg +:+ str_tuple visited)))
      visited nmoves evs.
Proof.
  intros Hlast Hcur Hle Hobs Hself.
  destruct tape; simpl; rewrite Hlast, !bool_decide_true by done; simpl;
    rewrite Hobs, Hself; destruct return_bad; unfold logged; simpl;
    by rewrite app_nil_r.
Qed.

Lemma stuck_walk_stops_witness :
  ∃ evs o,
    observe TwoSite.gpm TwoSite.tools "00" TwoSite.improving false "00"
    = (evs, inr o) ∧
    eqb (self_prob o) (of_int 1) = true ∧
    mc_loop TwoSite.gpm TwoSite.tools "00" "11" TwoSite.improving 5 false false
      [10%float] ["00"] 0
    = Run (Raise (EvolverError (stuck_msg +:+ str_tuple ["00"]))) ["00"] 0 evs.
Proof.
  eexists _, _. split; [reflexivity|]. split; [reflexivity|].
  eapply (stuck_walk_stops TwoSite.gpm TwoSite.tools "00" "11" TwoSite.improving 5
    false false [10%float] ["00"] 0 "00"); [done | done | lia | reflexivity | reflexivity].
Defined.

(** C5.  One step of the Metropolis walker.  The proposal is the entry of
    [get_neighbors(current) + [current]] at a position picked uniformly;
    when the enumerator returns a set that does not hold [current], the
    entries of that array are the members of neighbors(current) ∪ {current},
    each proposed with probability 1 / (len + 1).  With [p] the model output
    for (fitness current, fitness proposed) and [u] the uniform draw of this
    step, [u < p] appends the proposal, and otherwise [current] is appended
    again and the failure counter grows by exactly 1. *)
Theorem metropolis_step {num mut} `{!Numeric num}
    (gpm : GenotypePhenotypeMap num mut) (tools : Tools mut)
    (target : genotype) (model : num → num → num) (max_fails : Z)
    (pick : nat) (u : num) (tape : list (nat * num))
    (visited : list genotype) (fails : Z) (current proposed : genotype)
    (fitness0 fitness1 : num) :
  last visited = Some current → current ≠ target → fails ≤ max_fails →
  phenotypes gpm !! current = Some fitness0 →
  candidates gpm tools current !! pick = Some proposed →
  phenotypes gpm !! proposed = Some fitness1 →
  let ns := get_neighbors tools current (mutations gpm) in
  let p := model fitness0 fitness1 in
  (∀ c, c ∈ candidates gpm tools current ↔ c ∈ ns ∨ c = current) ∧
  (enumerates_a_set ns current →
   ∀ c, c ∈ candidates gpm tools current →
     choice_prob (candidates gpm tools current) c
     = (1 / Q2Qc (inject_Z (Z.of_nat (length ns) + 1)))%Qc) ∧
  (∀ c, c ∉ candidates gpm tools current →
     choice_prob (candidates gpm tools current) c = 0%Qc) ∧
  metropolis_loop gpm tools target model max_fails ((pick, u) :: tape) visited fails
  = if ltb u p then
      logged [CallNeighbors current; CallRandom; CallModel current proposed;
              CallRandom; Accepted current proposed]
        (metropolis_loop gpm tools target model max_fails tape
           (visited ++ [proposed]) fails)
    else
      logged [CallNeighbors current; CallRandom; CallModel current proposed;
              CallRandom; Rejected current proposed]
        (metropolis_loop gpm tools target model max_fails tape
           (visited ++ [current]) (fails + 1)).
Proof.
  intros Hlast Hcur Hle H0 Hpick H1 ns p.
  split_and!.
  - intros c. unfold candidates. rewrite elem_of_app, list_elem_of_singleton. done.
  - intros [Hdup Hself] c Hc.
    assert (NoDup (candidates gpm tools current)) as Hdup'.
    { unfold candidates. apply NoDup_app.
      split_and!; [done | | apply NoDup_singleton].
      intros x Hx ->%list_elem_of_singleton. done. }
    unfold choice_prob. rewrite occurrences_NoDup by done.
    unfold candidates. rewrite length_app. simpl.
    by rewrite Nat2Z.inj_add.
  - intros c Hc. unfold choice_prob. rewrite occurrences_not_elem by done.
    apply Qcmult_0_l.
  - by apply metropolis_loop_step.
Qed.

Lemma metropolis_step_witness :
  choice_prob (candidates TwoSite.gpm TwoSite.tools "00") "10"
  = (1 / Q2Qc (inject_Z 3))%Qc ∧
  metropolis_loop TwoSite.gpm TwoSite.tools "11" TwoSite.improving 5
    [(0%nat, 0.5%float)] ["00"] 0
  = logged [CallNeighbors "00"; CallRandom; CallModel "00" "10"; CallRandom;
            Rejected "00" "10"]
      (metropolis_loop TwoSite.gpm TwoSite.tools "11" TwoSite.improving 5 []
         ["00"; "00"] 1).
Proof.
  assert (enumerates_a_set (get_neighbors TwoSite.tools "00" tt) "00") as Hset.
  { split.
    - apply (bool_decide_unpack _). by vm_compute.
    - apply (bool_decide_unpack _). by vm_compute. }
  destruct (metropolis_step TwoSite.gpm TwoSite.tools "11" TwoSite.improving 5
    0%nat 0.5%float [] ["00"] 0 "00" "10" 1%float 1%float)
    as (_ & Hprob & _ & Hstep);
    [done | done | lia | by vm_compute | done | by vm_compute |].
  split; [apply Hprob; [exact Hset | by left] | exact Hstep].
Defined.

(** C6 (as stated it fails for accepted proposals of the current genotype).
    A rejected step appends the genotype the walk is on, so the new entry
    equals the one before it, and adds 1 to the failure counter.  At the end
    of a call the failure counter is the number of rejected steps; the
    repeated entries of the trajectory are the rejected steps together with
    the accepted proposals of the current genotype, so the counter is at
    most their number. *)
Theorem failure_counter_counts_rejections {num mut} `{!Numeric num}
    (gpm : GenotypePhenotypeMap num mut) (tools : Tools mut)
    (source target : genotype) (model : num → num → num) (max_fails : Z)
    (tape_m : list (nat * num)) :
  let r := monte_carlo_metropolis_criterion gpm tools source target model
             max_fails tape_m in
  final_count r = Z.of_nat (count_events is_rejection (trace r)) ∧
  repeats (final_visited r)
  = (count_events is_rejection (trace r) +
     count_events is_accepted_stay (trace r))%nat ∧
  final_count r ≤ Z.of_nat (repeats (final_visited r)) ∧
  (∀ pick u tape visited fails current proposed fitness0 fitness1,
     last visited = Some current → current ≠ target → fails ≤ max_fails →
     phenotypes gpm !! current = Some fitness0 →
     candidates gpm tools current !! pick = Some proposed →
     phenotypes gpm !! proposed = Some fitness1 →
     ltb u (model fitness0 fitness1) = false →
     last (visited ++ [current]) = last visited ∧
     metropolis_loop gpm tools target model max_fails ((pick, u) :: tape)
       visited fails
     = logged [CallNeighbors current; CallRandom; CallModel current proposed;
               CallRandom; Rejected current proposed]
         (metropolis_loop gpm tools target model max_fails tape
            (visited ++ [current]) (fails + 1))).
Proof.
  intros r. unfold r, monte_carlo_metropolis_criterion.
  destruct (metropolis_loop_counts gpm tools target model max_fails tape_m
    [source] 0) as [Hcount Hrep]. simpl in Hcount, Hrep.
  split_and!; [lia | lia | lia |].
  intros pick u tape visited fails current proposed fitness0 fitness1
    Hlast Hcur Hle H0 Hpick H1 Hlt.
  split; [by rewrite last_snoc|].
  rewrite (metropolis_loop_step _ _ _ _ _ _ _ _ _ _ _ _ _ _
    Hlast Hcur Hle H0 Hpick H1).
  by rewrite Hlt.
Qed.

Lemma failure_counter_counts_rejections_witness :
  final_count
    (monte_carlo_metropolis_criterion TwoSite.gpm TwoSite.tools "00" "11"
       TwoSite.improving 1 [(0%nat, 0.5%float); (1%nat, 0.5%float)])
  = 2.
Proof.
  destruct (failure_counter_counts_rejections TwoSite.gpm TwoSite.tools "00" "11"
    TwoSite.improving 1 [(0%nat, 0.5%float); (1%nat, 0.5%float)]) as (Hcount & _).
  rewrite Hcount. by vm_compute.
Defined.

(** The first proposal is the current genotype itself and is accepted: one
    repeated entry, no failure counted. *)
Lemma accepted_stay_is_not_a_failure :
  result (monte_carlo_metropolis_criterion TwoSite.gpm TwoSite.tools "00" "11"
            TwoSite.always 5
            [(2%nat, 0.5%float); (0%nat, 0.5%float); (1%nat, 0.5%float)])
  = Return ["00"; "00"; "10"; "11"] ∧
  final_count (monte_carlo_metropolis_criterion TwoSite.gpm TwoSite.tools "00" "11"
                 TwoSite.always 5
                 [(2%nat, 0.5%float); (0%nat, 0.5%float); (1%nat, 0.5%float)])
  = 0 ∧
  repeats ["00"; "00"; "10"; "11"] = 1%nat.
Proof. split_and!; by vm_compute. Qed.

(** C7 (as stated it fails for a negative ceiling).  With [source == target]
    and a ceiling that is not negative, both walkers return the one-element
    tuple [(source,)] with no call of the neighbor enumerator, the model or
    the random generator; and [simulate] started on a mutant returns a log
    whose path holds that genotype only. *)
Theorem source_is_target {num mut} `{!Numeric num}
    (gpm : GenotypePhenotypeMap num mut) (tools : Tools mut)
    (source : genotype) (model : num → num → num) (max_moves max_fails : Z)
    (forward return_bad : bool) (tape : list num) (tape_m : list (nat * num))
    (chain : MarkovChain num) (tape_s : list nat) :
  (0 ≤ max_moves →
   monte_carlo gpm tools source source model max_moves forward return_bad tape
   = Run (Return [source]) [source] 0 []) ∧
  (0 ≤ max_fails →
   monte_carlo_metropolis_criterion gpm tools source source model max_fails tape_m
   = Run (Return [source]) [source] 0 []) ∧
  (binary_wildtype chain ∈ mutant chain →
   simulate chain tape_s = Return (Log [binary_wildtype chain])).
Proof.
  split_and!.
  - intros Hmax. unfold monte_carlo.
    destruct tape; simpl; rewrite (bool_decide_false (_ ≠ _)) by naive_solver;
      simpl; by rewrite bool_decide_false by lia.
  - intros Hmax. unfold monte_carlo_metropolis_criterion.
    rewrite (metropolis_loop_exit _ _ _ _ _ _ _ _ source) by (done || by left).
    by rewrite bool_decide_false by lia.
  - intros Hmut. unfold simulate.
    destruct tape_s; simpl; by rewrite bool_decide_false by naive_solver.
Qed.

Lemma source_is_target_witness :
  0 ≤ 0 ∧ "11" ∈ mutant TwoSite.chain_at_mutant ∧
  monte_carlo TwoSite.gpm TwoSite.tools "00" "00" TwoSite.always 0 false false []
  = Run (Return ["00"]) ["00"] 0 [] ∧
  monte_carlo_metropolis_criterion TwoSite.gpm TwoSite.tools "00" "00"
    TwoSite.always 0 [] = Run (Return ["00"]) ["00"] 0 [] ∧
  simulate TwoSite.chain_at_mutant [] = Return (Log ["11"]).
Proof.
  pose proof (source_is_target TwoSite.gpm TwoSite.tools "00" TwoSite.always 0 0
    false false [] [] TwoSite.chain_at_mutant []) as (Hmc & Hmet & Hsim).
  assert ("11" ∈ mutant TwoSite.chain_at_mutant) as Hin by (by left).
  split_and!; [lia | done | apply Hmc; lia | apply Hmet; lia | by apply Hsim].
Defined.

(** With a negative ceiling the check after the loop fires although
    [source == target]. *)
Lemma negative_ceiling_raises :
  result (monte_carlo TwoSite.gpm TwoSite.tools "00" "00" TwoSite.always (-1)
            false false [])
  = Raise (EvolverError max_moves_msg) ∧
  result (monte_carlo_metropolis_criterion TwoSite.gpm TwoSite.tools "00" "00"
            TwoSite.always (-1) [])
  = Raise (EvolverError max_moves_msg).
Proof. split; by vm_compute. Qed.

(** C8.  When the enumerator only returns genotypes that differ from its
    argument at exactly one mutable site, two entries of the trajectory of
    [monte_carlo] that follow each other and are not equal differ by exactly
    one mutation; in any case each appended genotype is the current one or
    one of its enumerated neighbors.  This holds for the tuple [visited] at
    the end of every call, which is the tuple a successful call returns. *)
Theorem single_mutation_steps {num mut} `{!Numeric num}
    (gpm : GenotypePhenotypeMap num mut) (tools : Tools mut)
    (source target : genotype) (model : num → num → num) (max_moves : Z)
    (forward return_bad : bool) (tape : list num) (mutable : nat → Prop) :
  (∀ g n, n ∈ neighbors_method gpm tools source forward g → one_mutation mutable g n) →
  let r := monte_carlo gpm tools source target model max_moves forward
             return_bad tape in
  (∀ v, result r = Return v → v = final_visited r) ∧
  ∀ i a b,
    final_visited r !! i = Some a → final_visited r !! S i = Some b →
    (b = a ∨ b ∈ neighbors_method gpm tools source forward a) ∧
    (b ≠ a → one_mutation mutable a b).
Proof.
  intros Henum r. unfold r, monte_carlo. split.
  - intros v. apply mc_loop_returned.
  - intros i a b Ha Hb.
    assert (b = a ∨ b ∈ neighbors_method gpm tools source forward a) as Hmove.
    { eapply mc_loop_moves; [|done..]. simpl. lia. }
    split; [done|]. intros Hne. destruct Hmove as [?|Hin]; [done|]. by apply Henum.
Qed.

Lemma single_mutation_steps_witness :
  one_mutation (λ _, True) "00" "10" ∧ one_mutation (λ _, True) "10" "11".
Proof.
  destruct (single_mutation_steps TwoSite.gpm TwoSite.tools "00" "11"
    TwoSite.always 5 false false [10%float; 40%float] (λ _, True))
    as [_ Hsteps].
  { intros g n. apply flips_one_mutation. }
  split.
  - apply (Hsteps 0%nat "00" "10"); [by vm_compute | by vm_compute | done].
  - apply (Hsteps 1%nat "10" "11"); [by vm_compute | by vm_compute | done].
Defined.

(** C9 (as stated it fails for the two ceiling errors).  An [EvolverError]
    of [monte_carlo] is either the stuck error, whose message ends with the
    partial trajectory, or the max-moves error with its fixed message; the
    [EvolverError] of the Metropolis walker always has that fixed message.
    The fixed message holds no trajectory. *)
Theorem evolver_error_messages {num mut} `{!Numeric num}
    (gpm : GenotypePhenotypeMap num mut) (tools : Tools mut)
    (source target : genotype) (model : num → num → num) (max_moves max_fails : Z)
    (forward return_bad : bool) (tape : list num) (tape_m : list (nat * num)) :
  let r := monte_carlo gpm tools source target model max_moves forward
             return_bad tape in
  let r' := monte_carlo_metropolis_criterion gpm tools source target model
              max_fails tape_m in
  (∀ msg, result r = Raise (EvolverError msg) →
     (msg = stuck_msg +:+ str_tuple (final_visited r) ∧ final_count r ≤ max_moves) ∨
     (msg = max_moves_msg ∧ final_count r > max_moves)) ∧
  (∀ msg, result r' = Raise (EvolverError msg) →
     msg = max_moves_msg ∧ final_count r' > max_fails).
Proof.
  intros r r'. unfold r, r', monte_carlo, monte_carlo_metropolis_criterion.
  split.
  - intros msg Herr.
    apply mc_loop_evolver_error in Herr as [[-> ?]|(-> & _ & ? & _)]; auto.
  - intros msg Herr. by apply metropolis_loop_evolver_error in Herr.
Qed.

Lemma evolver_error_messages_witness :
  stuck_msg +:+ str_tuple ["00"] = stuck_msg +:+ str_tuple ["00"] ∧ 0 ≤ 5 ∨
  stuck_msg +:+ str_tuple ["00"] = max_moves_msg ∧ 0 > 5.
Proof.
  destruct (evolver_error_messages TwoSite.gpm TwoSite.tools "00" "11"
    TwoSite.improving 5 5 false false [] []) as [Hmc _].
  apply (Hmc (stuck_msg +:+ str_tuple ["00"])). by vm_compute.
Defined.

(** Two calls stop with different partial trajectories and raise the very
    same error: the max-moves error does not carry the trajectory. *)
Lemma max_moves_error_forgets_trajectory :
  result (monte_carlo TwoSite.gpm TwoSite.tools "00" "11" TwoSite.always 0
            false false [10%float])
  = Raise (EvolverError max_moves_msg) ∧
  result (monte_carlo TwoSite.gpm TwoSite.tools "00" "11" TwoSite.always 0
            false false [90%float])
  = Raise (EvolverError max_moves_msg) ∧
  final_visited (monte_carlo TwoSite.gpm TwoSite.tools "00" "11" TwoSite.always 0
                   false false [10%float]) = ["00"; "10"] ∧
  final_visited (monte_carlo TwoSite.gpm TwoSite.tools "00" "11" TwoSite.always 0
                   false false [90%float]) = ["00"; "00"].
Proof. split_and!; by vm_compute. Qed.

(** C10.  The [return_bad] escape applies to the stuck case only: whatever
    [return_bad] is, and so also when it is true, a call of [monte_carlo]
    whose move counter ends above [max_moves] raises the [EvolverError] of
    line 95; it does not return the partial trajectory. *)
Theorem return_bad_keeps_max_moves_error {num mut} `{!Numeric num}
    (gpm : GenotypePhenotypeMap num mut) (tools : Tools mut)
    (source target : genotype) (model : num → num → num) (max_moves : Z)
    (forward return_bad : bool) (tape : list num) :
  final_count
    (monte_carlo gpm tools source target model max_moves forward return_bad tape)
    > max_moves →
  result (monte_carlo gpm tools source target model max_moves forward return_bad tape)
  = Raise (EvolverError max_moves_msg).
Proof. apply mc_loop_over_budget, singleton_not_nil. Qed.

Lemma return_bad_keeps_max_moves_error_witness :
  final_count
    (monte_carlo TwoSite.gpm TwoSite.tools "00" "11" TwoSite.always 1 false true
       [90%float; 90%float]) > 1 ∧
  result
    (monte_carlo TwoSite.gpm TwoSite.tools "00" "11" TwoSite.always 1 false true
       [90%float; 90%float]) = Raise (EvolverError max_moves_msg).
Proof.
  split; [by vm_compute|].
  apply (return_bad_keeps_max_moves_error TwoSite.gpm TwoSite.tools "00" "11"
    TwoSite.always 1 false true [90%float; 90%float]).
  by vm_compute.
Defined.

(** * Further properties of the samplers *)

(** ** [monte_carlo] *)

Section monte_carlo_more.
Context {num mut : Type} `{!Numeric num}.
Variable gpm : GenotypePhenotypeMap num mut.
Variable tools : Tools mut.
Variable source target : genotype.
Variable model : num → num → num.
Variable max_moves : Z.
Variable forward return_bad : bool.

Local Abbreviation nbrs := (neighbors_method gpm tools source forward).
Local Abbreviation obs := (observe gpm tools source model forward).
Local Abbreviation loop :=
  (mc_loop gpm tools source target model max_moves forward return_bad).

(** The events of one pass through lines 65-77: the enumerator call and
    the model calls made before the pass ended. *)
Lemma observe_trace current evs r :
  obs current = (evs, r) →
  evs = [] ∨
  ∃ called, called `prefix_of` nbrs current ∧
    evs = CallNeighbors current :: (CallModel current <$> called).
Proof.
  unfold observe. intros Hobs.
  destruct (getitem (mapping_p gpm) current) as [e|fitness0]; [left; by simplify_eq|].
  destruct (model_calls gpm model current fitness0 (nbrs current))
    as [evs' r'] eqn:Hcalls.
  destruct (model_calls_events _ _ _ _ _ _ _ Hcalls) as (called & Hpre & ->).
  simplify_eq. right. by exists called.
Qed.

Lemma observe_no_draw current evs r :
  obs current = (evs, r) → count_events is_random evs = 0%nat.
Proof.
  intros [->|(called & _ & ->)]%observe_trace; [done|].
  unfold count_events. simpl. induction called as [|n called IH]; [done|]. done.
Qed.

(** A [KeyError] of lines 65-77 names a genotype that is missing from the
    mapping: the current one or one of its neighbors. *)
Lemma model_calls_key_error current fitness0 ns evs e :
  model_calls gpm model current fitness0 ns = (evs, inl e) →
  ∃ key, e = KeyError key ∧ mapping_p gpm !! key = None ∧ key ∈ ns.
Proof.
  revert evs. induction ns as [|n ns IH]; intros evs Hcalls; simpl in *; [done|].
  destruct (getitem (mapping_p gpm) n) as [e'|fitness1] eqn:Hn.
  { simplify_eq. apply getitem_inl in Hn as [-> Hn]. exists n.
    split_and!; [done | done | left]. }
  destruct (model_calls gpm model current fitness0 ns) as [evs' [e'|outs]];
    simplify_eq.
  destruct (IH _ eq_refl) as (key & -> & Hkey & Hin).
  exists key. split_and!; [done | done | by right].
Qed.

Lemma observe_key_error current evs e :
  obs current = (evs, inl e) →
  ∃ key, e = KeyError key ∧ mapping_p gpm !! key = None ∧
         (key = current ∨ key ∈ nbrs current).
Proof.
  unfold observe. intros Hobs.
  destruct (getitem (mapping_p gpm) current) as [e'|fitness0] eqn:Hcur.
  { simplify_eq. apply getitem_inl in Hcur as [-> Hcur]. exists current. auto. }
  destruct (model_calls gpm model current fitness0 (nbrs current))
    as [evs' [e'|outs]] eqn:Hcalls; simplify_eq.
  destruct (model_calls_key_error _ _ _ _ _ Hcalls) as (key & -> & ? & ?).
  exists key. auto.
Qed.

(** X1.  [monte_carlo] is bounded by [max_moves]: it never draws more than
    [max_moves + 1] random numbers, so with that many at hand the call
    ends (it returns or raises). *)
Theorem monte_carlo_bounded (tape : list num) :
  let r := monte_carlo gpm tools source target model max_moves forward
             return_bad tape in
  Z.of_nat (count_events is_random (trace r)) ≤ Z.max 0 (max_moves + 1) ∧
  (max_moves + 1 ≤ Z.of_nat (length tape) → result r ≠ Unfinished).
Proof.
  cbv zeta.
  split.
  - unfold monte_carlo.
    assert (∀ tape visited nmoves,
      Z.of_nat (count_events is_random (trace (loop tape visited nmoves)))
      ≤ Z.max 0 (max_moves + 1 - nmoves)) as Hgen; [|by rewrite Hgen, Z.sub_0_r].
    apply (mc_loop_cases gpm tools source target model max_moves forward
      return_bad (λ _ _ nmoves r,
        Z.of_nat (count_events is_random (trace r))
        ≤ Z.max 0 (max_moves + 1 - nmoves))); simpl; intros;
      rewrite ?logged_trace, ?count_events_app;
      repeat match goal with
      | H : obs _ = _ |- _ => apply observe_no_draw in H; rewrite ?H
      end; unfold count_events in *; simpl; lia.
  - intros Hlen. apply mc_loop_finishes. lia.
Qed.
(** X2.  The move counter of [monte_carlo] is the number of entries of
    [visited] after the first, and a trajectory that is returned was
    reached within [max_moves] moves. *)
Theorem monte_carlo_move_count (tape : list num) :
  let r := monte_carlo gpm tools source target model max_moves forward
             return_bad tape in
  final_count r = Z.of_nat (length (final_visited r)) - 1 ∧
  ∀ v, result r = Return v → Z.of_nat (length v) - 1 ≤ max_moves.
Proof.
  cbv zeta.
  unfold monte_carlo.
  assert (∀ tape visited nmoves,
    let r := loop tape visited nmoves in
    final_count r - nmoves
    = Z.of_nat (length (final_visited r)) - Z.of_nat (length visited) ∧
    ∀ v, result r = Return v → final_count r ≤ max_moves ∧ v = final_visited r)
    as Hgen.
  { apply (mc_loop_cases gpm tools source target model max_moves forward
      return_bad (λ _ visited nmoves r,
        final_count r - nmoves
        = Z.of_nat (length (final_visited r)) - Z.of_nat (length visited) ∧
        ∀ v, result r = Return v → final_count r ≤ max_moves ∧ v = final_visited r));
      simpl; intros; try (split; [lia|]; intros; by simplify_eq).
    - split; [lia|]. intros v. destruct return_bad; intros; by simplify_eq.
    - match goal with H : _ ∧ _ |- _ => destruct H as [Hc Hr] end.
      rewrite length_app in Hc. simpl in Hc. split; [lia | done]. }
  destruct (Hgen tape [source] 0) as [Hcount Hret]. simpl in *.
  split; [lia|]. intros v Hv. apply Hret in Hv as [? ->]. lia.
Qed.

(** X3.  [monte_carlo] stops at the first visit to the target: no entry of
    [visited] before the last is the target. *)
Theorem monte_carlo_first_arrival (tape : list num) (i : nat) :
  let r := monte_carlo gpm tools source target model max_moves forward
             return_bad tape in
  (S i < length (final_visited r))%nat →
  final_visited r !! i ≠ Some target.
Proof.
  cbv zeta.
  unfold monte_carlo. revert i.
  assert (∀ tape visited nmoves,
    (∀ i, (S i < length visited)%nat → visited !! i ≠ Some target) →
    ∀ i, (S i < length (final_visited (loop tape visited nmoves)))%nat →
         final_visited (loop tape visited nmoves) !! i ≠ Some target) as Hgen.
  { apply (mc_loop_cases gpm tools source target model max_moves forward
      return_bad (λ _ visited _ r,
        (∀ i, (S i < length visited)%nat → visited !! i ≠ Some target) →
        ∀ i, (S i < length (final_visited r))%nat →
             final_visited r !! i ≠ Some target)); simpl; try by auto.
    intros mc_number tape' visited nmoves current evs o new
      Hlast Hcur _ _ _ _ IH Hbefore. apply IH.
    intros i Hi. rewrite length_app in Hi. simpl in Hi.
    rewrite lookup_app_l by lia.
    destruct (decide (S i = length visited)) as [Heq|Hne].
    - rewrite last_lookup, <-Heq in Hlast. simpl in Hlast. congruence.
    - apply Hbefore. lia. }
  apply Hgen. intros i Hi. simpl in Hi. lia.
Qed.

(** X4.  A [KeyError] of [monte_carlo] names a genotype that is missing from
    the genotype-phenotype mapping, and that genotype is the one the walk
    stands on or one of its enumerated neighbors. *)
Theorem monte_carlo_key_error (tape : list num) (key : genotype) :
  let r := monte_carlo gpm tools source target model max_moves forward
             return_bad tape in
  result r = Raise (KeyError key) →
  phenotypes gpm !! key = None ∧
  ∃ current, last (final_visited r) = Some current ∧
             (key = current ∨ key ∈ nbrs current).
Proof.
  cbv zeta.
  unfold monte_carlo. generalize [source] 0. revert tape.
  apply (mc_loop_cases gpm tools source target model max_moves forward return_bad
    (λ _ _ _ r, result r = Raise (KeyError key) →
       phenotypes gpm !! key = None ∧
       ∃ current, last (final_visited r) = Some current ∧
                  (key = current ∨ key ∈ nbrs current)));
    simpl; intros; try done; try by destruct return_bad.
  - match goal with H : obs _ = _ |- _ =>
      apply observe_key_error in H as (k & ? & ? & ?) end.
    simplify_eq. eauto.
  - auto.
Qed.

(** X5.  When the mapping holds the source and, with a genotype, all the
    neighbors the enumerator lists for it, [monte_carlo] raises no
    [KeyError]. *)
Theorem monte_carlo_no_key_error (tape : list num) (key : genotype) :
  let r := monte_carlo gpm tools source target model max_moves forward
             return_bad tape in
  is_Some (phenotypes gpm !! source) →
  (∀ g n, is_Some (phenotypes gpm !! g) → n ∈ nbrs g → is_Some (phenotypes gpm !! n)) →
  result r ≠ Raise (KeyError key).
Proof.
  cbv zeta.
  intros Hsource Hclosed. unfold monte_carlo.
  assert (∀ tape visited nmoves,
    Forall (λ g, is_Some (phenotypes gpm !! g)) visited →
    result (loop tape visited nmoves) ≠ Raise (KeyError key)) as Hgen.
  { apply (mc_loop_cases gpm tools source target model max_moves forward
      return_bad (λ _ visited _ r,
        Forall (λ g, is_Some (phenotypes gpm !! g)) visited →
        result r ≠ Raise (KeyError key))); simpl; try done.
    - intros _ visited _ current evs e Hlast _ _ Hobs Hall [= ->].
      apply observe_key_error in Hobs as (k & [= <-] & Hnone & Hwhere).
      assert (is_Some (phenotypes gpm !! current)) as Hcur.
      { rewrite Forall_forall in Hall. apply Hall.
        rewrite last_lookup in Hlast. by eapply list_elem_of_lookup_2. }
      unfold mapping_p in Hnone.
      destruct Hwhere as [->|Hin].
      + rewrite Hnone in Hcur. by destruct Hcur.
      + apply (Hclosed _ _ Hcur) in Hin. rewrite Hnone in Hin. by destruct Hin.
    - intros. by destruct return_bad.
    - intros mc_number tape' visited nmoves current evs o new
        Hlast _ _ Hobs _ Hsel IH Hall. apply IH.
      assert (is_Some (phenotypes gpm !! current)) as Hcur.
      { rewrite Forall_forall in Hall. apply Hall.
        rewrite last_lookup in Hlast. by eapply list_elem_of_lookup_2. }
      apply Forall_app. split; [done|]. apply Forall_singleton.
      apply first_masked_elem in Hsel.
      destruct (observe_ok _ _ _ _ _ _ _ _ Hobs) as (? & ? & _ & _ & _ & _ & Hmoves & _).
      rewrite Hmoves in Hsel. apply elem_of_app in Hsel as [Hin|Hin].
      + by apply (Hclosed current).
      + apply list_elem_of_singleton in Hin. by subst. }
  apply Hgen. by apply Forall_singleton.
Qed.
Lemma first_masked_first (ms : list genotype) (cd : list num) x new :
  first_masked ms cd x = Some new →
  ∃ i c, ms !! i = Some new ∧ cd !! i = Some c ∧ geb c x = true ∧
         ∀ j c', (j < i)%nat → cd !! j = Some c' → geb c' x = false.
Proof.
  revert cd. induction ms as [|m ms IH]; intros [|c cd] Hsel; simplify_eq/=.
  destruct (geb c x) eqn:Hc.
  - simplify_eq. exists 0%nat, c. split_and!; [done..|]. intros j c' Hj. lia.
  - destruct (IH _ Hsel) as (i & c0 & Hi & Hci & Hge & Hbefore).
    exists (S i), c0. split_and!; [done..|].
    intros [|j] c' Hj Hc'; simplify_eq/=; [done|]. eapply Hbefore; [|done]. lia.
Qed.

Lemma first_masked_none (ms : list genotype) (cd : list num) x :
  length ms = length cd →
  first_masked ms cd x = None ↔ ∀ c, c ∈ cd → geb c x = false.
Proof.
  revert cd. induction ms as [|m ms IH]; intros [|c cd] Hlen; simplify_eq/=.
  { split; [|done]. intros _ c Hc. by apply elem_of_nil in Hc. }
  destruct (geb c x) eqn:Hc.
  - split; [done|]. intros Hall. specialize (Hall c). rewrite Hc in Hall.
    discriminate Hall. left.
  - rewrite IH by done. split.
    + intros Hall c' [->|Hin]%elem_of_cons; auto.
    + intros Hall c' Hin. apply Hall. by right.
Qed.

(** X6.  Line 90 of [monte_carlo] is an inverse-CDF draw.  The mask
    [cumulative_dist >= mc_number] has one entry for each of the
    [len(neighbors) + 1] entries of [moves]; the genotype selected is the first
    one whose cumulative value reaches the draw; and the indexing fails (an
    [IndexError]) exactly when no cumulative value reaches it. *)
Theorem monte_carlo_selection (current : genotype) (evs : list event)
    (o : observation) (mc_number : num) :
  obs current = (evs, inr o) →
  let cumulative := cumulative_dist (probs o) in
  length (moves o) = S (length (nbrs current)) ∧
  length cumulative = length (moves o) ∧
  (∀ new,
     first_masked (moves o) cumulative mc_number = Some new →
     ∃ i c, moves o !! i = Some new ∧ cumulative !! i = Some c ∧
            geb c mc_number = true ∧
            ∀ j c', (j < i)%nat → cumulative !! j = Some c' →
                    geb c' mc_number = false) ∧
  (first_masked (moves o) cumulative mc_number = None ↔
   ∀ c, c ∈ cumulative → geb c mc_number = false).
Proof.
  intros Hobs cumulative.
  destruct (observe_ok _ _ _ _ _ _ _ _ Hobs)
    as (fitness0 & outs & _ & Hcalls & _ & _ & Hmoves & Hfix & Htrans & _ & Hprobs).
  apply model_calls_ok in Hcalls as [_ Hall%Forall2_length].
  assert (length (moves o) = S (length (nbrs current))) as Hlen.
  { rewrite Hmoves, length_app. simpl. lia. }
  assert (length cumulative = length (moves o)) as Hlen'.
  { unfold cumulative, cumulative_dist.
    rewrite length_fmap, length_seq, Hprobs, length_app, Htrans, Hfix.
    rewrite !length_fmap, Hlen. simpl. lia. }
  split_and!; [done | done | |].
  - intros new. apply first_masked_first.
  - by apply first_masked_none.
Qed.
End monte_carlo_more.

Lemma monte_carlo_bounded_witness :
  result (monte_carlo TwoSite.gpm TwoSite.tools "00" "11" TwoSite.always 1 false
            false [90%float; 90%float]) ≠ Unfinished.
Proof.
  apply (monte_carlo_bounded TwoSite.gpm TwoSite.tools "00" "11" TwoSite.always 1
    false false [90%float; 90%float]).
  simpl. lia.
Defined.

Lemma monte_carlo_move_count_witness :
  Z.of_nat (length ["00"; "10"; "11"]) - 1 ≤ 5.
Proof.
  destruct (monte_carlo_move_count TwoSite.gpm TwoSite.tools "00" "11"
    TwoSite.always 5 false false [10%float; 40%float]) as [_ Hret].
  apply Hret. by vm_compute.
Defined.

Lemma monte_carlo_first_arrival_witness :
  (["00"; "10"; "11"] : list genotype) !! 1%nat ≠ Some "11".
Proof.
  pose proof (monte_carlo_first_arrival TwoSite.gpm TwoSite.tools "00" "11"
    TwoSite.always 5 false false [10%float; 40%float] 1%nat) as Hfirst.
  vm_compute in Hfirst. intros Heq. apply Hfirst; [lia | exact Heq].
Defined.

Lemma monte_carlo_key_error_witness :
  phenotypes TwoSite.gpm !! "0" = None ∧
  ∃ current, last ["0"] = Some current ∧
    ("0" = current ∨
     "0" ∈ neighbors_method TwoSite.gpm TwoSite.tools "0" false current).
Proof.
  apply (monte_carlo_key_error TwoSite.gpm TwoSite.tools "0" "11" TwoSite.always 5
    false false [] "0").
  by vm_compute.
Defined.

(** The mapping of the two-site landscape holds every genotype its
    enumerator lists. *)
Lemma two_site_closed (g n : genotype) :
  is_Some (phenotypes TwoSite.gpm !! g) → n ∈ TwoSite.flips g tt →
  is_Some (phenotypes TwoSite.gpm !! n).
Proof.
  intros [x Hx] Hin. apply elem_of_list_to_map_2 in Hx.
  repeat (apply elem_of_cons in Hx as [[= -> ->]|Hx]);
    [..|by apply elem_of_nil in Hx];
    (apply elem_of_cons in Hin as [->|Hin];
     [|apply elem_of_cons in Hin as [->|Hin]; [|by apply elem_of_nil in Hin]]);
    vm_compute; eauto.
Qed.

Lemma monte_carlo_no_key_error_witness :
  result (monte_carlo TwoSite.gpm TwoSite.tools "00" "11" TwoSite.always 5 false
            false [10%float; 40%float]) ≠ Raise (KeyError "10").
Proof.
  apply (monte_carlo_no_key_error TwoSite.gpm TwoSite.tools "00" "11"
    TwoSite.always 5 false false [10%float; 40%float] "10").
  - vm_compute. eauto.
  - intros g n. apply two_site_closed.
Defined.

Lemma monte_carlo_selection_witness :
  ∃ evs o,
    observe TwoSite.gpm TwoSite.tools "00" TwoSite.always false "00" = (evs, inr o) ∧
    length (moves o) = 3%nat ∧ length (cumulative_dist (probs o)) = 3%nat.
Proof.
  eexists _, _. split; [reflexivity|].
  destruct (monte_carlo_selection TwoSite.gpm TwoSite.tools "00" TwoSite.always
    false "00" _ _ 10%float eq_refl) as (Hmoves & Hmask & _).
  split; [exact Hmoves | by vm_compute].
Defined.

(** ** [monte_carlo] on floating-point numbers *)

(** X7.  A genotype without neighbors is a dead end: the sum over an empty
    array is 0, the self probability is exactly 1, and the walk stops on the
    spot, before any random number is drawn. *)
Theorem monte_carlo_dead_end {mut : Type}
    (gpm : GenotypePhenotypeMap float mut) (tools : Tools mut)
    (source target : genotype) (model : float → float → float) (max_moves : Z)
    (forward return_bad : bool) (tape : list float) :
  source ≠ target → 0 ≤ max_moves →
  is_Some (phenotypes gpm !! source) →
  neighbors_method gpm tools source forward source = [] →
  monte_carlo gpm tools source target model max_moves forward return_bad tape
  = Run (if return_bad then Return [source]
         else Raise (EvolverError (stuck_msg +:+ str_tuple [source])))
      [source] 0 [CallNeighbors source].
Proof.
  intros Hne Hmax [fitness0 H0] Hnone. unfold monte_carlo.
  assert (observe gpm tools source model forward source
          = ([CallNeighbors source],
             inr (Observation [] [source] [] [] 1%float [1%float]))) as Hobs.
  { unfold observe. apply getitem_inr in H0. unfold mapping_p.
    rewrite H0, Hnone. reflexivity. }
  destruct tape; simpl; rewrite !bool_decide_true by done; simpl;
    rewrite Hobs; simpl; by destruct return_bad.
Qed.

Lemma monte_carlo_dead_end_witness :
  monte_carlo TwoSite.gpm TwoSite.no_tools "00" "11" TwoSite.always 5 false true
    [10%float]
  = Run (Return ["00"]) ["00"] 0 [CallNeighbors "00"].
Proof.
  apply (monte_carlo_dead_end TwoSite.gpm TwoSite.no_tools "00" "11" TwoSite.always
    5 false true [10%float]); [done | lia | vm_compute; eauto | done].
Defined.

(** ** [monte_carlo_metropolis_criterion] *)

Section metropolis_more.
Context {num mut : Type} `{!Numeric num}.
Variable gpm : GenotypePhenotypeMap num mut.
Variable tools : Tools mut.
Variable source target : genotype.
Variable model : num → num → num.
Variable max_fails : Z.

Local Abbreviation cands := (candidates gpm tools).
Local Abbreviation mloop := (metropolis_loop gpm tools target model max_fails).

(** X8.  Every attempt of the Metropolis walker, accepted or rejected,
    extends the trajectory by one entry, and the model is called exactly
    once per attempt. *)
Theorem metropolis_one_entry_per_attempt (tape : list (nat * num)) :
  let r := monte_carlo_metropolis_criterion gpm tools source target model
             max_fails tape in
  length (final_visited r)
  = S (count_events is_attempt (trace r)) ∧
  count_events is_model_call (trace r)
  = count_events is_attempt (trace r).
Proof.
  cbv zeta.
  unfold monte_carlo_metropolis_criterion.
  assert (∀ tape visited fails,
    let r := mloop tape visited fails in
    length (final_visited r)
    = (length visited + count_events is_attempt (trace r))%nat ∧
    count_events is_model_call (trace r) = count_events is_attempt (trace r))
    as Hgen; [|by destruct (Hgen tape [source] 0) as [-> ->]].
  apply (metropolis_loop_cases gpm tools target model max_fails
    (λ _ visited _ r,
       length (final_visited r)
       = (length visited + count_events is_attempt (trace r))%nat ∧
       count_events is_model_call (trace r) = count_events is_attempt (trace r)));
    try (unfold count_events; simpl; intros; split; (lia || done)).
  all: intros pick mc_number tape' visited fails current fitness0 proposed fitness1
    _ _ _ _ _ _ _ [IHlen IHcalls];
    rewrite logged_final_visited, logged_trace, !count_events_app, IHlen, IHcalls,
      length_app; unfold count_events; simpl; split; lia.
Qed.

(** X9.  Every entry the Metropolis walker appends is the genotype the walk
    stands on or one of its enumerated neighbors. *)
Theorem metropolis_moves (tape : list (nat * num)) (i : nat) (a b : genotype) :
  let r := monte_carlo_metropolis_criterion gpm tools source target model
             max_fails tape in
  final_visited r !! i = Some a →
  final_visited r !! S i = Some b →
  b = a ∨ b ∈ get_neighbors tools a (mutations gpm).
Proof.
  cbv zeta.
  unfold monte_carlo_metropolis_criterion.
  assert (∀ tape visited fails,
    (length visited ≤ S i)%nat →
    final_visited (mloop tape visited fails) !! i = Some a →
    final_visited (mloop tape visited fails) !! S i = Some b →
    b = a ∨ b ∈ get_neighbors tools a (mutations gpm)) as Hgen.
  { assert (∀ tape visited fails current new,
      last visited = Some current →
      new = current ∨ new ∈ get_neighbors tools current (mutations gpm) →
      ((length (visited ++ [new]) ≤ S i)%nat →
       final_visited (mloop tape (visited ++ [new]) fails) !! i = Some a →
       final_visited (mloop tape (visited ++ [new]) fails) !! S i = Some b →
       b = a ∨ b ∈ get_neighbors tools a (mutations gpm)) →
      (length visited ≤ S i)%nat →
      final_visited (mloop tape (visited ++ [new]) fails) !! i = Some a →
      final_visited (mloop tape (visited ++ [new]) fails) !! S i = Some b →
      b = a ∨ b ∈ get_neighbors tools a (mutations gpm)) as Hstep.
    { intros tape' visited fails current new Hlast Hnew IH Hlen Ha Hb.
      destruct (decide (length visited = S i)) as [Heq|Hne].
      - pose proof (metropolis_loop_prefix gpm tools target model max_fails
          tape' (visited ++ [new]) fails) as [rest Hrest].
        rewrite Hrest in Ha, Hb. rewrite <-(assoc_L (++)) in Ha, Hb.
        rewrite lookup_app_l in Ha by lia. rewrite lookup_app_r in Hb by lia.
        replace (S i - length visited)%nat with 0%nat in Hb by lia. simpl in Hb.
        rewrite last_lookup, Heq in Hlast. simpl in Hlast. by simplify_eq.
      - apply IH; [|done..]. rewrite length_app. simpl. lia. }
    apply (metropolis_loop_cases gpm tools target model max_fails
      (λ _ visited _ r, (length visited ≤ S i)%nat →
         final_visited r !! i = Some a → final_visited r !! S i = Some b →
         b = a ∨ b ∈ get_neighbors tools a (mutations gpm))); simpl;
      try (intros; match goal with
        H : ?v !! S i = Some _, H' : (length ?v ≤ S i)%nat |- _ =>
          apply lookup_lt_Some in H; lia end).
    - intros pick mc_number tape' visited fails current fitness0 proposed fitness1
        Hlast _ _ _ Hpick _ _ IH. eapply Hstep; [done | | done].
      apply list_elem_of_lookup_2 in Hpick. unfold candidates in Hpick.
      apply elem_of_app in Hpick as [?|?%list_elem_of_singleton]; auto.
    - intros pick mc_number tape' visited fails current fitness0 proposed fitness1
        Hlast _ _ _ _ _ _ IH. eapply Hstep; [done | by left | done]. }
  apply Hgen. simpl. lia.
Qed.

(** X10.  The Metropolis walker stops at the first visit to the target, and
    a trajectory that is returned holds at most [max_fails] rejected steps. *)
Theorem metropolis_first_arrival (tape : list (nat * num)) :
  let r := monte_carlo_metropolis_criterion gpm tools source target model
             max_fails tape in
  (∀ i, (S i < length (final_visited r))%nat →
        final_visited r !! i ≠ Some target) ∧
  (∀ v, result r = Return v →
        Z.of_nat (count_events is_rejection (trace r)) ≤ max_fails).
Proof.
  cbv zeta.
  unfold monte_carlo_metropolis_criterion. split.
  - assert (∀ tape visited fails,
      (∀ i, (S i < length visited)%nat → visited !! i ≠ Some target) →
      ∀ i, (S i < length (final_visited (mloop tape visited fails)))%nat →
           final_visited (mloop tape visited fails) !! i ≠ Some target) as Hgen.
    { assert (∀ visited current new,
        last visited = Some current → current ≠ target →
        (∀ i, (S i < length visited)%nat → visited !! i ≠ Some target) →
        ∀ i, (S i < length (visited ++ [new]))%nat →
             (visited ++ [new]) !! i ≠ Some target) as Hsnoc.
      { intros visited current new Hlast Hcur Hbefore i Hi.
        rewrite length_app in Hi. simpl in Hi. rewrite lookup_app_l by lia.
        destruct (decide (S i = length visited)) as [Heq|Hne].
        - rewrite last_lookup, <-Heq in Hlast. simpl in Hlast. congruence.
        - apply Hbefore. lia. }
      apply (metropolis_loop_cases gpm tools target model max_fails
        (λ _ visited _ r,
           (∀ i, (S i < length visited)%nat → visited !! i ≠ Some target) →
           ∀ i, (S i < length (final_visited r))%nat →
                final_visited r !! i ≠ Some target)); simpl; try by auto.
      all: intros pick mc_number tape' visited fails current fitness0 proposed
        fitness1 Hlast Hcur _ _ _ _ _ IH Hbefore; apply IH; by eapply Hsnoc. }
    apply Hgen. intros i Hi. simpl in Hi. lia.
  - intros v Hret.
    destruct (metropolis_loop_counts gpm tools target model max_fails tape
      [source] 0) as [Hcount _]. simpl in Hcount.
    assert (∀ tape visited fails,
      result (mloop tape visited fails) = Return v →
      final_count (mloop tape visited fails) ≤ max_fails) as Hgen.
    { apply (metropolis_loop_cases gpm tools target model max_fails
        (λ _ _ _ r, result r = Return v → final_count r ≤ max_fails));
        simpl; intros; by auto. }
    apply Hgen in Hret. lia.
Qed.

Lemma metropolis_loop_stays (n : nat) (u : num) (current : genotype)
    (fitness0 : num) (visited : list genotype) (fails : Z) :
  last visited = Some current → current ≠ target → fails ≤ max_fails →
  phenotypes gpm !! current = Some fitness0 →
  ltb u (model fitness0 fitness0) = true →
  let pick := length (get_neighbors tools current (mutations gpm)) in
  let r := mloop (replicate n (pick, u)) visited fails in
  result r = Unfinished ∧
  final_visited r = visited ++ replicate n current ∧
  final_count r = fails.
Proof.
  intros Hlast Hcur Hle H0 Hlt pick. revert visited Hlast.
  induction n as [|n IH]; intros visited Hlast; cbn [replicate].
  - rewrite (metropolis_loop_enter _ _ _ _ _ _ _ _ current) by done.
    rewrite H0. simpl. by rewrite app_nil_r.
  - assert (cands current !! pick = Some current) as Hpick.
    { unfold candidates, pick. rewrite lookup_app_r by lia.
      by rewrite Nat.sub_diag. }
    rewrite (metropolis_loop_step _ _ _ _ _ _ _ _ _ _ _ _ _ _
      Hlast Hcur Hle H0 Hpick H0), Hlt.
    rewrite logged_result, logged_final_visited, logged_final_count.
    destruct (IH (visited ++ [current])) as (-> & -> & ->); [apply last_snoc|].
    split_and!; [done | | done]. by rewrite <-(assoc_L (++)).
Qed.

(** X11.  [max_fails] does not bound the Metropolis walk: an accepted
    proposal of the current genotype extends the trajectory and leaves the
    failure counter alone, so a walk can stay on the source for any number
    of steps without ending and without a failure being counted. *)
Theorem metropolis_unbounded (n : nat) (u : num) (fitness0 : num) :
  source ≠ target → 0 ≤ max_fails →
  phenotypes gpm !! source = Some fitness0 →
  ltb u (model fitness0 fitness0) = true →
  let pick := length (get_neighbors tools source (mutations gpm)) in
  let r := monte_carlo_metropolis_criterion gpm tools source target model
             max_fails (replicate n (pick, u)) in
  result r = Unfinished ∧
  final_visited r = replicate (S n) source ∧
  final_count r = 0.
Proof.
  intros Hne Hmax H0 Hlt.
  by apply (metropolis_loop_stays n u source fitness0 [source] 0).
Qed.

(** X12.  A [KeyError] of the Metropolis walker names a genotype that is
    missing from the mapping: the one the walk stands on or the proposal. *)
Theorem metropolis_key_error (tape : list (nat * num)) (key : genotype) :
  let r := monte_carlo_metropolis_criterion gpm tools source target model
             max_fails tape in
  result r = Raise (KeyError key) →
  phenotypes gpm !! key = None ∧
  ∃ current, last (final_visited r) = Some current ∧
             key ∈ cands current.
Proof.
  cbv zeta.
  unfold monte_carlo_metropolis_criterion. generalize [source] 0. revert tape.
  apply (metropolis_loop_cases gpm tools target model max_fails
    (λ _ _ _ r, result r = Raise (KeyError key) →
       phenotypes gpm !! key = None ∧
       ∃ current, last (final_visited r) = Some current ∧ key ∈ cands current));
    simpl; intros; simplify_eq; try done; auto.
  - split; [done|]. eexists. split; [done|]. unfold candidates.
    apply elem_of_app. right. left.
  - split; [done|]. eexists. split; [done|]. by eapply list_elem_of_lookup_2.
Qed.

(** X13.  When the mapping holds the source and, with a genotype, all the
    neighbors the enumerator lists for it, the Metropolis walker raises no
    [KeyError]. *)
Theorem metropolis_no_key_error (tape : list (nat * num)) (key : genotype) :
  let r := monte_carlo_metropolis_criterion gpm tools source target model
             max_fails tape in
  is_Some (phenotypes gpm !! source) →
  (∀ g n, is_Some (phenotypes gpm !! g) →
          n ∈ get_neighbors tools g (mutations gpm) →
          is_Some (phenotypes gpm !! n)) →
  result r ≠ Raise (KeyError key).
Proof.
  cbv zeta.
  intros Hsource Hclosed. unfold monte_carlo_metropolis_criterion.
  assert (∀ tape visited fails,
    Forall (λ g, is_Some (phenotypes gpm !! g)) visited →
    result (mloop tape visited fails) ≠ Raise (KeyError key)) as Hgen.
  { assert (∀ visited current,
      last visited = Some current →
      Forall (λ g, is_Some (phenotypes gpm !! g)) visited →
      is_Some (phenotypes gpm !! current)) as Hcurrent.
    { intros visited current Hlast Hall. rewrite Forall_forall in Hall.
      apply Hall. rewrite last_lookup in Hlast. by eapply list_elem_of_lookup_2. }
    apply (metropolis_loop_cases gpm tools target model max_fails
      (λ _ visited _ r,
         Forall (λ g, is_Some (phenotypes gpm !! g)) visited →
         result r ≠ Raise (KeyError key))); simpl; try done.
    - intros _ visited _ current Hlast _ _ Hnone Hall _.
      apply (Hcurrent _ _ Hlast) in Hall. rewrite Hnone in Hall. by destruct Hall.
    - intros pick _ _ visited _ current fitness0 proposed Hlast _ _ _ Hpick Hnone
        Hall _.
      apply (Hcurrent _ _ Hlast) in Hall as Hcur.
      apply list_elem_of_lookup_2 in Hpick. unfold candidates in Hpick.
      apply elem_of_app in Hpick as [Hin|Heq%list_elem_of_singleton].
      + apply (Hclosed _ _ Hcur) in Hin. rewrite Hnone in Hin. by destruct Hin.
      + subst proposed. rewrite Hnone in Hcur. by destruct Hcur.
    - intros pick _ tape' visited fails current fitness0 proposed fitness1
        _ _ _ _ _ H1 _ IH Hall. apply IH.
      apply Forall_app. split; [done|]. apply Forall_singleton. by eexists.
    - intros pick _ tape' visited fails current fitness0 proposed fitness1
        _ _ _ H0 _ _ _ IH Hall. apply IH.
      apply Forall_app. split; [done|]. apply Forall_singleton. by eexists. }
  apply Hgen. by apply Forall_singleton.
Qed.
End metropolis_more.

Lemma metropolis_moves_witness :
  "10" = "00" ∨ "10" ∈ get_neighbors TwoSite.tools "00" tt.
Proof.
  apply (metropolis_moves TwoSite.gpm TwoSite.tools "00" "11" TwoSite.always 5
    [(0%nat, 0.5%float); (1%nat, 0.5%float)] 0%nat "00" "10"); by vm_compute.
Defined.

Lemma metropolis_first_arrival_witness :
  Z.of_nat
    (count_events is_rejection
       (trace (monte_carlo_metropolis_criterion TwoSite.gpm TwoSite.tools "00" "11"
                 TwoSite.always 5 [(0%nat, 0.5%float); (1%nat, 0.5%float)])))
  ≤ 5.
Proof.
  destruct (metropolis_first_arrival TwoSite.gpm TwoSite.tools "00" "11"
    TwoSite.always 5 [(0%nat, 0.5%float); (1%nat, 0.5%float)]) as [_ Hret].
  apply (Hret ["00"; "10"; "11"]). by vm_compute.
Defined.

Lemma metropolis_unbounded_witness :
  final_visited
    (monte_carlo_metropolis_criterion TwoSite.gpm TwoSite.tools "00" "11"
       TwoSite.always 0 (replicate 7 (2%nat, 0.5%float)))
  = replicate 8 "00".
Proof.
  destruct (metropolis_unbounded TwoSite.gpm TwoSite.tools "00" "11"
    TwoSite.always 0 7 0.5%float 1%float) as (_ & Hvisited & _);
    [done | lia | by vm_compute | by vm_compute | exact Hvisited].
Defined.

Lemma metropolis_key_error_witness :
  phenotypes TwoSite.gpm !! "0" = None ∧
  ∃ current, last ["0"] = Some current ∧
             "0" ∈ candidates TwoSite.gpm TwoSite.tools current.
Proof.
  apply (metropolis_key_error TwoSite.gpm TwoSite.tools "0" "11" TwoSite.always 5
    [] "0").
  by vm_compute.
Defined.

Lemma metropolis_no_key_error_witness :
  result (monte_carlo_metropolis_criterion TwoSite.gpm TwoSite.tools "00" "11"
            TwoSite.always 5 [(0%nat, 0.5%float)]) ≠ Raise (KeyError "10").
Proof.
  apply (metropolis_no_key_error TwoSite.gpm TwoSite.tools "00" "11"
    TwoSite.always 5 [(0%nat, 0.5%float)] "10").
  - vm_compute. eauto.
  - intros g n. apply two_site_closed.
Defined.

(** ** [MarkovChain.simulate] *)

Lemma list_index_None x (l : list genotype) : list_index x l = None ↔ x ∉ l.
Proof.
  induction l as [|y l IH]; simpl.
  - split; [intros _ ?%elem_of_nil | done]. done.
  - case_bool_decide as Hy.
    + subst. split; [done|]. intros Hnot. exfalso. apply Hnot. left.
    + rewrite fmap_None, IH, not_elem_of_cons. split; [by auto | by intros [_ ?]].
Qed.

Lemma list_index_Some x (l : list genotype) :
  x ∈ l → ∃ i, list_index x l = Some i ∧ (i < length l)%nat.
Proof.
  induction l as [|y l IH]; [by intros ?%elem_of_nil|]. simpl.
  intros Hin. case_bool_decide as Hy.
  - exists 0%nat. split; [done | lia].
  - apply elem_of_cons in Hin as [->|Hin]; [done|].
    destruct (IH Hin) as (i & -> & Hi). exists (S i). split; [done | lia].
Qed.

Section simulate_more.
Context {num : Type}.
Variable self : MarkovChain num.

Local Abbreviation labels := (genotypes self).

Lemma drawn_in_range (drawn : nat) :
  drawn ∈ gt_indices self ↔ (drawn < length labels)%nat.
Proof. unfold gt_indices. rewrite elem_of_seq. lia. Qed.

(** X14.  [simulate] looks the current state up among the column labels of
    the transition matrix: started on a wildtype that is no mutant and no
    column label, it raises [ValueError] before drawing anything. *)
Theorem simulate_unknown_wildtype (tape : list nat) :
  binary_wildtype self ∉ mutant self →
  binary_wildtype self ∉ columns (tm self) →
  simulate self tape = Raise ValueError.
Proof.
  intros Hmut Hcol. unfold simulate.
  apply list_index_None in Hcol.
  destruct tape; simpl; rewrite bool_decide_true by done;
    unfold genotypes; by rewrite Hcol.
Qed.


(** X16.  The path [simulate] returns grows by one column label per draw:
    every entry after the first is a column label of the transition matrix,
    and the path has at most one entry more than there were draws. *)
Theorem simulate_path_entries (tape : list nat) (l : log) :
  simulate self tape = Return l →
  (∀ i g, path l !! S i = Some g → g ∈ columns (tm self)) ∧
  (length (path l) ≤ S (length tape))%nat.
Proof.
  unfold simulate.
  assert (∀ tape StateCurr p,
    simulate_loop self tape StateCurr p = Return l →
    ∃ more, path l = p ++ more ∧ Forall (λ g, g ∈ columns (tm self)) more ∧
            (length more ≤ length tape)%nat) as Hgen.
  { clear tape. induction tape as [|drawn tape IH]; intros StateCurr p; simpl.
    all: case_bool_decide as Hmut;
      [|intros [= <-]; exists []; simpl; rewrite app_nil_r;
        split_and!; [done | done | lia]].
    all: destruct (list_index StateCurr labels) as [row|]; [|done].
    all: destruct (rows (tm self) !! row) as [pmf|]; [|done].
    { done. }
    case_bool_decide; [|done].
    destruct (labels !! drawn) as [state_drawn|] eqn:Hdrawn; [|done].
    intros (more & Hpath & Hall & Hlen)%IH.
    exists (state_drawn :: more). rewrite Hpath, <-(assoc_L (++)).
    split_and!; [done | | simpl; lia].
    constructor; [|done]. by eapply list_elem_of_lookup_2. }
  intros (more & Hpath & Hall & Hlen)%Hgen. rewrite Hpath. split.
  - intros i g. simpl. intros Hg. rewrite Forall_forall in Hall.
    apply Hall. by eapply list_elem_of_lookup_2.
  - simpl. lia.
Qed.

(** X17.  [simulate] has no step ceiling: on a square matrix, as long as the
    draws keep landing on column labels that are no mutants, the walk goes
    on, however many draws there are. *)
Theorem simulate_unbounded (tape : list nat) :
  length (rows (tm self)) = length (columns (tm self)) →
  binary_wildtype self ∈ columns (tm self) →
  binary_wildtype self ∉ mutant self →
  Forall (λ drawn, ∃ g, columns (tm self) !! drawn = Some g ∧ g ∉ mutant self) tape →
  simulate self tape = Unfinished.
Proof.
  intros Hsquare Hcol Hmut Htape. unfold simulate.
  generalize [binary_wildtype self]. revert Hcol Hmut.
  generalize (binary_wildtype self).
  induction Htape as [|drawn tape (g & Hg & Hgmut) _ IH];
    intros StateCurr Hcol Hmut p; simpl.
  all: rewrite bool_decide_true by done.
  all: destruct (list_index_Some _ _ Hcol) as (row & Hrow & Hlt);
    unfold genotypes; rewrite Hrow.
  all: destruct (lookup_lt_is_Some_2 (rows (tm self)) row) as [pmf Hpmf];
    [lia|]; rewrite Hpmf; try done.
  rewrite bool_decide_true
    by (apply drawn_in_range; unfold genotypes; by eapply lookup_lt_Some).
  rewrite Hg. apply IH; [|done]. by eapply list_elem_of_lookup_2.
Qed.
End simulate_more.

Lemma simulate_unknown_wildtype_witness :
  simulate (Build_MarkovChain float (tm TwoSite.chain) "10" ["11"]) [1%nat]
  = Raise ValueError.
Proof.
  apply (simulate_unknown_wildtype
    (Build_MarkovChain float (tm TwoSite.chain) "10" ["11"]) [1%nat]).
  - apply (bool_decide_unpack _). by vm_compute.
  - apply (bool_decide_unpack _). by vm_compute.
Defined.


Lemma simulate_path_entries_witness :
  (length ["00"; "01"; "11"] ≤ 4)%nat.
Proof.
  destruct (simulate_path_entries TwoSite.chain [1%nat; 2%nat; 0%nat]
    (Log ["00"; "01"; "11"])) as [_ Hlen]; [by vm_compute | exact Hlen].
Defined.

Lemma simulate_unbounded_witness :
  simulate TwoSite.chain [1%nat; 0%nat; 1%nat; 0%nat; 1%nat] = Unfinished.
Proof.
  apply (simulate_unbounded TwoSite.chain [1%nat; 0%nat; 1%nat; 0%nat; 1%nat]).
  - done.
  - left.
  - apply (bool_decide_unpack _). by vm_compute.
  - repeat constructor; eexists; (split; [reflexivity|]);
      apply (bool_decide_unpack _); by vm_compute.
Defined.

(** ** [MarkovChain.__init__] *)

Lemma split_first (s : string) :
  ∃ name pieces,
    split "." s = name :: pieces ∧
    (∀ i, String.get i name ≠ Some "."%char) ∧
    (s = name ∨ ∃ rest, s = name +:+ String "." rest).
Proof.
  induction s as [|c s (name & pieces & Hsplit & Hdot & Hcut)]; simpl.
  - exists "", []. split_and!; [done | by intros [|?] | by left].
  - destruct (Ascii.eqb c ".") eqn:Hc.
    + apply Ascii.eqb_eq in Hc as ->. exists "", (split "." s).
      split_and!; [done | by intros [|?] | right; by exists s].
    + apply Ascii.eqb_neq in Hc. rewrite Hsplit.
      exists (String c name), pieces. split_and!; [done | |].
      * intros [|i]; simpl; [congruence | apply Hdot].
      * destruct Hcut as [->|[rest ->]]; [by left | right; by exists rest].
Qed.

(** X18.  The attribute [outfilename] is the given [outputfile] cut at its
    first dot: it holds no dot, and [outputfile] is [outfilename] alone or
    [outfilename] followed by a dot and the rest.  So a name that starts
    with a dot, as a path below the current directory does, gives an empty
    [outfilename].  Without an [outputfile] the attribute is not set. *)
Theorem init_outfilename_cut (outputfile : string) :
  init_outfilename None = None ∧
  ∃ name,
    init_outfilename (Some outputfile) = Some name ∧
    (∀ i, String.get i name ≠ Some "."%char) ∧
    (outputfile = name ∨ ∃ rest, outputfile = name +:+ String "." rest) ∧
    (∀ rest, outputfile = String "." rest → name = "").
Proof.
  split; [done|].
  destruct (split_first outputfile) as (name & pieces & Hsplit & Hdot & Hcut).
  exists name. simpl. rewrite Hsplit. split_and!; [done..|].
  intros rest ->. destruct name as [|c name]; [done|].
  specialize (Hdot 0%nat). simpl in Hdot.
  destruct Hcut as [Heq|[rest' Heq]]; simpl in Heq; by simplify_eq.
Qed.
